(** * harvest_news: the NewsHarvester class of [main.py]

    A shallow embedding of the feed cutter ([rss_cutter]), of the two-slot
    window of recent permalinks ([two_last_news_link], [item_is_fresh]), of the
    constructor that seeds the window from the [news] table, and of one turn
    of the polling loop of [run], followed by the properties the
    specification states about them.

    Conventions of the embedding.
    - A Python [str] is a [string]; the Cyrillic console messages of the
      source are carried as the bytes of their UTF-8 encoding.
    - A Python list is a [list]; [insert], [pop], indexing and [in] are
      written out below with the exception each of them can raise.
    - A primitive that raises exactly one kind of exception returns an
      [option] ([None] stands for the raise); a method of the class returns a
      [result], and what it printed as a list of [event]s.
    - [requests.get] and [xmltodict.parse] are external: the response of the
      first is an input of a loop turn, the second is a variable of the
      section that models [run].  [time.sleep] is not modelled. *)

From Stdlib Require Import List String Ascii ZArith Bool Arith Lia.
From Stdlib Require Import Sorting.Sorted Sorting.Permutation.
Import ListNotations.

Local Open Scope string_scope.
Local Open Scope list_scope.

(** ** Python values, exceptions and the primitives the class uses *)

(** The values that can sit in the window: what [sqlite3] hands back for a
    cell of the [news] table ([None] for NULL, an [int] for the key, a [str]
    for a TEXT cell) and what [xmltodict] yields for a text element. *)
Inductive pyval : Type :=
| PNone
| PInt (z : Z)
| PStr (s : string).

(** Python's [==] on these values: equal type and equal content. *)
Definition pyval_eqb (a b : pyval) : bool :=
  match a, b with
  | PNone, PNone => true
  | PInt x, PInt y => Z.eqb x y
  | PStr s, PStr t => String.eqb s t
  | _, _ => false
  end.

Inductive exn : Type :=
| ValueError
| IndexError
| KeyError
| TypeError
| RequestException
| ExpatError
| BindingError.

Inductive result (A : Type) : Type :=
| Return (a : A)
| Raise (e : exn).

Arguments Return {A} a.
Arguments Raise {A} e.

Definition bind {A B : Type} (r : result A) (k : A -> result B) : result B :=
  match r with
  | Return a => k a
  | Raise e => Raise e
  end.

Notation "x <- c ;; k" := (bind c (fun x => k))
  (at level 61, c at next level, right associativity).

(** What the program writes to the console: [print] of a string and
    [pprint.pprint] of the fetched rows. *)
Inductive event : Type :=
| Print (s : string)
| PPrint (rows : list (list pyval)).

(** [x in l]. *)
Definition list_contains (x : pyval) (l : list pyval) : bool :=
  existsb (pyval_eqb x) l.

(** [l.insert(i, x)] for [i >= 0]: [x] goes before position [i], at the end
    when [i] is past it. *)
Definition list_insert {A : Type} (i : nat) (x : A) (l : list A) : list A :=
  firstn i l ++ x :: skipn i l.

(** [l.pop()]: the last element and the list without it; [None] is the
    [IndexError] of an empty list. *)
Fixpoint list_pop {A : Type} (l : list A) : option (A * list A) :=
  match l with
  | [] => None
  | x :: l' =>
      match list_pop l' with
      | None => Some (x, [])
      | Some (y, rest) => Some (y, x :: rest)
      end
  end.

(** [l[i]] for [i >= 0]; [None] is [IndexError]. *)
Definition list_getitem {A : Type} (l : list A) (i : nat) : option A :=
  nth_error l i.

(** [l[i] = x] for [i >= 0]; [None] is [IndexError]. *)
Fixpoint list_setitem {A : Type} (l : list A) (i : nat) (x : A) : option (list A) :=
  match l, i with
  | [], _ => None
  | _ :: l', O => Some (x :: l')
  | y :: l', S i' => option_map (cons y) (list_setitem l' i' x)
  end.

(** [l.index(x)] on a list of strings; [None] is [ValueError]. *)
Fixpoint list_index (l : list string) (x : string) : option nat :=
  match l with
  | [] => None
  | y :: l' => if String.eqb y x then Some 0 else option_map S (list_index l' x)
  end.

(** [s.index(sub)]: the lowest position at which [sub] starts in [s];
    [None] is [ValueError]. *)
Fixpoint str_index (s sub : string) : option nat :=
  if prefix sub s then Some 0
  else match s with
       | EmptyString => None
       | String _ s' => option_map S (str_index s' sub)
       end.

(** [s[:n]] for [n >= 0]. *)
Definition str_upto (s : string) (n : nat) : string := substring 0 n s.

(** [s[n:]] for [n >= 0]. *)
Fixpoint str_from (s : string) (n : nat) : string :=
  match n, s with
  | O, _ => s
  | S _, EmptyString => EmptyString
  | S n', String _ s' => str_from s' n'
  end.

(** [sub] stands in [s] at position [p]: [s[p : p + len(sub)] == sub]. *)
Definition occurs_at (s sub : string) (p : nat) : Prop :=
  p + String.length sub <= String.length s /\
  substring p (String.length sub) s = sub.

(** [s] contains [sub] exactly once, at position [p]. *)
Definition occurs_once_at (s sub : string) (p : nat) : Prop :=
  occurs_at s sub p /\ forall q, occurs_at s sub q -> q = p.

(** ** The feed normalizer: [NewsHarvester.rss_cutter] *)

Definition dquote : string := String "034"%char EmptyString.

Definition closing_markup : string := "</channel></rss>".

(** The f-string of the [except] branch; the backslash at the end of its
    first source line joins the two lines without a line break. *)
Definition err_text (substr_to_find : string) : string :=
  ("ОШИБКА! Подстрока " ++ dquote ++ substr_to_find ++ dquote
   ++ " не найдена в передаваемом тексте rss_text в методе rss_cutter")%string.

Definition rss_cutter (rss_text substr_to_find : string)
  : list event * result string :=
  match str_index rss_text substr_to_find with
  | None =>
      ([Print (err_text substr_to_find)], Return (err_text substr_to_find))
  | Some substr_index =>
      ([], Return (str_upto rss_text substr_index ++ substr_to_find
                   ++ closing_markup)%string)
  end.

(** ** Element nesting of a document

    The parser behind [xmltodict.parse] is an external library.  What the
    docstring of [rss_cutter] promises about its result ("завершает отрезанный
    RSS правильным образом для сохранения XML-структуры документа") is read
    here through the nesting discipline every well-formed XML document obeys:
    an end tag closes the element opened last, every element is closed at the
    end, and there is one root.  Comments, CDATA sections and processing
    instructions are skipped up to their own terminators; a document type
    declaration with an internal subset is outside this reading. *)
Module Xml.

Record scanner : Type := mkScanner {
  open_elements : list string;   (* innermost first *)
  tag_body : option string;      (* the text after the last unclosed angle bracket *)
  roots : nat                    (* elements opened at the top level so far *)
}.

Definition start : scanner := mkScanner [] None 0.

Definition is_space (c : ascii) : bool :=
  Ascii.eqb c " " || Ascii.eqb c "009" || Ascii.eqb c "010" || Ascii.eqb c "013".

Fixpoint tag_name (body : string) : string :=
  match body with
  | EmptyString => EmptyString
  | String c rest => if is_space c then EmptyString else String c (tag_name rest)
  end.

Fixpoint ends_with (suffix s : string) : bool :=
  String.eqb suffix s ||
  match s with
  | EmptyString => false
  | String _ s' => ends_with suffix s'
  end.

(** The terminator a construct that starts with [body] waits for, when it is
    one of the three that may contain angle brackets. *)
Definition terminator (body : string) : option string :=
  if prefix "!--" body then Some "--"
  else if prefix "![CDATA[" body then Some "]]"
  else if prefix "?" body then Some "?"
  else None.

(** The effect of a complete tag [<body>] on the open elements. *)
Definition read_tag (s : scanner) (body : string) : option scanner :=
  match body with
  | EmptyString => None
  | String "/" name =>
      match open_elements s with
      | top :: below =>
          if String.eqb top (tag_name name)
          then Some (mkScanner below None (roots s))
          else None
      | [] => None
      end
  | String "!" _ => Some (mkScanner (open_elements s) None (roots s))
  | String "?" _ => Some (mkScanner (open_elements s) None (roots s))
  | _ =>
      let roots' := match open_elements s with
                    | [] => S (roots s)
                    | _ :: _ => roots s
                    end in
      if ends_with "/" body
      then Some (mkScanner (open_elements s) None roots')
      else Some (mkScanner (tag_name body :: open_elements s) None roots')
  end.

Definition scan_char (s : scanner) (c : ascii) : option scanner :=
  match tag_body s with
  | None =>
      if Ascii.eqb c "<"
      then Some (mkScanner (open_elements s) (Some EmptyString) (roots s))
      else Some s
  | Some body =>
      let more := Some (mkScanner (open_elements s)
                          (Some (body ++ String c EmptyString)%string) (roots s)) in
      match terminator body with
      | Some stop =>
          if Ascii.eqb c ">" && ends_with stop body then read_tag s body else more
      | None =>
          if Ascii.eqb c ">" then read_tag s body
          else if Ascii.eqb c "<" then None
          else more
      end
  end.

Fixpoint scan (text : string) (s : scanner) : option scanner :=
  match text with
  | EmptyString => Some s
  | String c rest =>
      match scan_char s c with
      | Some s' => scan rest s'
      | None => None
      end
  end.

(** The text holds no closing angle bracket. *)
Fixpoint no_closing_bracket (text : string) : Prop :=
  match text with
  | EmptyString => True
  | String c rest => c <> ">"%char /\ no_closing_bracket rest
  end.

(** The state in which exactly [rss] and, inside it, [channel] are open. *)
Definition in_channel : scanner := mkScanner ["channel"; "rss"] None 1.

Definition well_nested (text : string) : bool :=
  match scan text start with
  | Some (mkScanner [] None 1) => true
  | _ => false
  end.

End Xml.

(** ** The window of recent permalinks: [NewsHarvester.item_is_fresh]

    The method works on [self.two_last_news_link]; the embedding passes the
    list in and returns the answer with the list as the call leaves it.
    [pop] is applied to a list that has just received an element, so its
    [IndexError] cannot occur; the unreachable branch keeps the list. *)
Definition item_is_fresh (two_last_news_link : list pyval) (news_link : pyval)
  : bool * list pyval :=
  if list_contains news_link two_last_news_link
  then (false, two_last_news_link)
  else
    let inserted := list_insert 0 news_link two_last_news_link in
    match list_pop inserted with
    | Some (_, rest) => (true, rest)
    | None => (true, inserted)
    end.

(** A sequence of calls on the same object: the answers in order and the
    window after the last call. *)
Fixpoint classify (window : list pyval) (links : list pyval)
  : list bool * list pyval :=
  match links with
  | [] => ([], window)
  | l :: links' =>
      let (fresh, window') := item_is_fresh window l in
      let (answers, final) := classify window' links' in
      (fresh :: answers, final)
  end.

(** The links of a sequence of calls that were answered [True], the most
    recent one first. *)
Fixpoint fresh_links (window : list pyval) (links : list pyval) : list pyval :=
  match links with
  | [] => []
  | l :: links' =>
      let (fresh, window') := item_is_fresh window l in
      fresh_links window' links' ++ (if fresh then [l] else [])
  end.

(** The window as line 57 of the constructor builds it. *)
Definition empty_window : list pyval := [PStr ""; PStr ""].

(** The windows [item_is_fresh] can produce from [empty_window]. *)
Inductive reachable : list pyval -> Prop :=
| reachable_start : reachable empty_window
| reachable_call : forall w l,
    reachable w -> reachable (snd (item_is_fresh w l)).

(** ** The [news] table

    The table is the one the constructor's [CREATE TABLE IF NOT EXISTS]
    declares: an INTEGER PRIMARY KEY [id] and seven TEXT columns.  A table is
    the list of its rows in the order they were inserted; queries order it as
    their SQL text says. *)
Module Db.

Record row : Type := mkRow {
  id : Z;
  author : pyval;
  category : pyval;
  description : pyval;
  img_link : pyval;
  link : pyval;
  pubDate : pyval;
  title : pyval
}.

Definition table : Type := list row.

(** The names [cursor.description] reports for [SELECT *]. *)
Definition columns : list string :=
  ["id"; "author"; "category"; "description"; "img_link"; "link"; "pubDate";
   "title"].

(** A row as the tuple [fetchmany] and [fetchall] return. *)
Definition tuple (r : row) : list pyval :=
  [PInt (id r); author r; category r; description r; img_link r; link r;
   pubDate r; title r].

Fixpoint insert_desc (r : row) (rows : list row) : list row :=
  match rows with
  | [] => [r]
  | r' :: rest =>
      if Z.leb (id r') (id r) then r :: rows else r' :: insert_desc r rest
  end.

(** [SELECT * FROM news ORDER BY id DESC]. *)
Definition select_order_by_id_desc (t : table) : list (list pyval) :=
  map tuple (fold_right insert_desc [] t).

(** [SELECT * FROM news]: the rows by ascending key. *)
Definition select_all (t : table) : list (list pyval) :=
  map tuple (rev (fold_right insert_desc [] t)).

(** [cursor.fetchmany(n)] right after the query. *)
Definition fetchmany {A : Type} (n : nat) (rows : list A) : list A := firstn n rows.

(** The key the engine gives a new row: 1 in an empty table, one more than
    the largest key otherwise. *)
Definition next_id (t : table) : Z :=
  match map id t with
  | [] => 1
  | i :: others => fold_right Z.max i others + 1
  end.

(** The seven bound parameters of the [INSERT], in the order of its column
    list: author, category, description, img_link, link, pubDate, title. *)
Record params : Type := mkParams {
  p_author : pyval;
  p_category : pyval;
  p_description : pyval;
  p_img_link : pyval;
  p_link : pyval;
  p_pubDate : pyval;
  p_title : pyval
}.

Definition new_row (t : table) (p : params) : row :=
  mkRow (next_id t) (p_author p) (p_category p) (p_description p)
        (p_img_link p) (p_link p) (p_pubDate p) (p_title p).

(** [INSERT INTO news(author, ..., title) VALUES(?, ..., ?)] and [commit]. *)
Definition insert (t : table) (p : params) : table := t ++ [new_row t p].

End Db.

(** The order of [ORDER BY id DESC]: no later row has a larger key. *)
Definition id_desc (r r' : Db.row) : Prop := (Db.id r' <= Db.id r)%Z.

(** ** The object and its constructor *)

Record NewsHarvester : Type := mkHarvester {
  two_last_news_link : list pyval;
  timer_for_sleep : Z;
  main_rss_link : string;
  db : Db.table   (* what [db_connection] and [db_cursor] give access to *)
}.

Definition msg_missing_records : string :=
  "Не удалось получить данные последних двух записей из БД. (NewsHarvester.__init__)".

Definition msg_missing_link_column : string :=
  "Не удалось найти в БД столбец с именем 'link'. (NewsHarvester.__init__)".

(** [self.two_last_news_link[k] = results[k][column_link_index]]; [None] is
    the [IndexError] of any of the three subscripts. *)
Definition assign_link (window : list pyval) (results : list (list pyval))
  (k column_link_index : nat) : option (list pyval) :=
  match list_getitem results k with
  | None => None
  | Some record =>
      match list_getitem record column_link_index with
      | None => None
      | Some value => list_setitem window k value
      end
  end.

(** Lines 88 to 98 of the constructor, as a function of what the cursor
    returned: the column names and the rows of [fetchmany(2)].  The first
    assignment stays when the second one raises. *)
Definition seed_window (db_column_names : list string)
  (results : list (list pyval)) (window : list pyval)
  : list event * list pyval :=
  match list_index db_column_names "link" with
  | None => ([Print msg_missing_link_column], window)
  | Some column_link_index =>
      match assign_link window results 0 column_link_index with
      | None => ([Print msg_missing_records], window)
      | Some window1 =>
          match assign_link window1 results 1 column_link_index with
          | None => ([Print msg_missing_records], window1)
          | Some window2 => ([], window2)
          end
      end
  end.

(** The object the constructor leaves, given what the cursor returned for
    the query of line 82. *)
Definition seeded (timer : Z) (stored : Db.table)
  (db_column_names : list string) (results : list (list pyval))
  : list event * NewsHarvester :=
  let (printed, window) := seed_window db_column_names results empty_window in
  (printed, mkHarvester window timer "https://lenta.ru/rss/news" stored).

(** [NewsHarvester(timer_for_sleep)] with the database file as it is found:
    [None] when [rss_news.db] does not hold the table yet. *)
Definition __init__ (timer : Z) (file : option Db.table)
  : list event * NewsHarvester :=
  let stored := match file with
                | Some t => t
                | None => []
                end in
  let db_column_names := Db.columns in
  let results := Db.fetchmany 2 (Db.select_order_by_id_desc stored) in
  seeded timer stored db_column_names results.

(** ** The polling loop: [NewsHarvester.run] *)

(** What [xmltodict.parse] builds: [None] for an empty element, a [str] for
    a text element, a [dict] for an element with attributes or children, a
    [list] for a repeated element. *)
#[warnings="-register-all"]
Inductive xval : Type :=
| XNone
| XStr (s : string)
| XDict (items : list (string * xval))
| XList (elems : list xval).

Fixpoint dict_get (items : list (string * xval)) (key : string) : option xval :=
  match items with
  | [] => None
  | (k, v) :: items' => if String.eqb k key then Some v else dict_get items' key
  end.

(** [v[key]] with a string key: [KeyError] on a dict without the key,
    [TypeError] on a value that is no dict. *)
Definition getitem (v : xval) (key : string) : result xval :=
  match v with
  | XDict items =>
      match dict_get items key with
      | Some x => Return x
      | None => Raise KeyError
      end
  | _ => Raise TypeError
  end.

(** [rss_dict['rss']['channel']['item'][key]]. *)
Definition item_field (rss_dict : xval) (key : string) : result xval :=
  rss <- getitem rss_dict "rss" ;;
  channel <- getitem rss "channel" ;;
  item <- getitem channel "item" ;;
  getitem item key.

(** The value of a text or empty element; a dict or a list is none. *)
Definition scalar (v : xval) : option pyval :=
  match v with
  | XNone => Some PNone
  | XStr s => Some (PStr s)
  | _ => None
  end.

(** Binding one parameter of the [INSERT]: [sqlite3] refuses a dict or a
    list. *)
Definition bind_param (v : xval) : result pyval :=
  match scalar v with
  | Some p => Return p
  | None => Raise BindingError
  end.

(** Lines 185 to 194: the six lookups in source order, then the binding of
    the seven parameters in the order of the tuple. *)
Definition read_params (rss_dict news_link : xval) : result Db.params :=
  author <- item_field rss_dict "author" ;;
  category <- item_field rss_dict "category" ;;
  description <- item_field rss_dict "description" ;;
  enclosure <- item_field rss_dict "enclosure" ;;
  img_link <- getitem enclosure "@url" ;;
  pub_date <- item_field rss_dict "pubDate" ;;
  title <- item_field rss_dict "title" ;;
  a <- bind_param author ;;
  c <- bind_param category ;;
  d <- bind_param description ;;
  i <- bind_param img_link ;;
  l <- bind_param news_link ;;
  p <- bind_param pub_date ;;
  t <- bind_param title ;;
  Return (Db.mkParams a c d i l p t).

(** The value [run] binds for a field of the item, and for the image link. *)
Definition field_value (rss_dict : xval) (key : string) : result pyval :=
  v <- item_field rss_dict key ;; bind_param v.

Definition image_url (rss_dict : xval) : result pyval :=
  enclosure <- item_field rss_dict "enclosure" ;;
  url <- getitem enclosure "@url" ;;
  bind_param url.

(** The parameters are the item's author, category, description, image
    link, permalink, publication date and title. *)
Definition item_values (rss_dict news_link : xval) (values : Db.params) : Prop :=
  field_value rss_dict "author" = Return (Db.p_author values) /\
  field_value rss_dict "category" = Return (Db.p_category values) /\
  field_value rss_dict "description" = Return (Db.p_description values) /\
  image_url rss_dict = Return (Db.p_img_link values) /\
  bind_param news_link = Return (Db.p_link values) /\
  field_value rss_dict "pubDate" = Return (Db.p_pubDate values) /\
  field_value rss_dict "title" = Return (Db.p_title values).

(** The call of [item_is_fresh] in [run].  A link that is a dict or a list
    equals none of the stored values, so the call answers [True]; the
    [INSERT] of the same turn then fails to bind it and the process ends, so
    the window of that case is never looked at again. *)
Definition check_link (window : list pyval) (news_link : xval)
  : bool * list pyval :=
  match scalar news_link with
  | Some l => item_is_fresh window l
  | None => (true, window)
  end.

Definition msg_fresh : string := "Получена свежая новость, БД обновлена!".

Definition msg_no_news : string := "Нет свежих новостей.".

(** How a turn of the loop ends: the object goes on to the next turn, or
    an exception nobody catches ends the process and only the stored table
    remains. *)
Inductive outcome : Type :=
| Running (self : NewsHarvester)
| Crashed (stored : Db.table) (e : exn).

Definition stored_after (o : outcome) : Db.table :=
  match o with
  | Running self => db self
  | Crashed stored _ => stored
  end.

Section Run.

(** [xmltodict.parse]. *)
Variable xmltodict_parse : string -> result xval.

(** Lines 168 to 179: the cut, the parse and the lookup of the link. *)
Definition fetch_link (text : string) : list event * result (xval * xval) :=
  let (printed, cut) := rss_cutter text "</item>" in
  (printed,
   cut_rss_text <- cut ;;
   rss_dict <- xmltodict_parse cut_rss_text ;;
   news_link <- item_field rss_dict "link" ;;
   Return (rss_dict, news_link)).

(** One turn of [while(True)], given what [requests.get] produced. *)
Definition cycle (self : NewsHarvester) (response : result string)
  : list event * outcome :=
  match response with
  | Raise e => ([], Crashed (db self) e)
  | Return text =>
      let (printed, fetched) := fetch_link text in
      match fetched with
      | Raise e => (printed, Crashed (db self) e)
      | Return (rss_dict, news_link) =>
          let (fresh, window) := check_link (two_last_news_link self) news_link in
          if fresh then
            match read_params rss_dict news_link with
            | Raise e => (printed, Crashed (db self) e)
            | Return values =>
                let stored := Db.insert (db self) values in
                (printed ++ [PPrint (Db.select_all stored); Print msg_fresh],
                 Running (mkHarvester window (timer_for_sleep self)
                            (main_rss_link self) stored))
            end
          else
            (printed ++ [Print msg_no_news],
             Running (mkHarvester window (timer_for_sleep self)
                        (main_rss_link self) (db self)))
      end
  end.

(** The answer of the freshness check of a turn, when the turn reaches it. *)
Definition verdict (self : NewsHarvester) (response : result string)
  : option bool :=
  match response with
  | Raise _ => None
  | Return text =>
      match snd (fetch_link text) with
      | Raise _ => None
      | Return (_, news_link) =>
          Some (fst (check_link (two_last_news_link self) news_link))
      end
  end.

(** The loop over the responses of as many turns as are looked at. *)
Fixpoint run (self : NewsHarvester) (responses : list (result string))
  : list event * outcome :=
  match responses with
  | [] => ([], Running self)
  | response :: later =>
      match cycle self response with
      | (printed, Running self') =>
          let (printed', o) := run self' later in (printed ++ printed', o)
      | (printed, Crashed stored e) => (printed, Crashed stored e)
      end
  end.

End Run.

(** A sequence of calls with the answer and the window after each call. *)
Fixpoint classify_trace (window : list pyval) (links : list pyval)
  : list (bool * list pyval) :=
  match links with
  | [] => []
  | l :: links' =>
      let r := item_is_fresh window l in
      r :: classify_trace (snd r) links'
  end.

(** ** Inputs of the examples *)

(** The text of a feed with one item, used in the examples below. *)
Definition one_item_feed : string :=
  "<rss><channel><item><link>L</link></item></channel></rss>".

(** A table as two turns of the loop leave it. *)
Definition row_X : Db.row :=
  Db.mkRow 1 (PStr "a") (PStr "c") (PStr "d") (PStr "i") (PStr "X") (PStr "p")
    (PStr "t").

Definition row_Y : Db.row :=
  Db.mkRow 2 (PStr "a") (PStr "c") (PStr "d") (PStr "i") (PStr "Y") (PStr "p")
    (PStr "t").

(** What [xmltodict.parse] yields for [one_item_feed]: an item that has a
    link and nothing else. *)
Definition link_only_dict : xval :=
  XDict [("rss", XDict [("channel", XDict [("item",
    XDict [("link", XStr "L")])])])].

(** An item with every field [run] reads. *)
Definition full_item_dict : xval :=
  XDict [("rss", XDict [("channel", XDict [("item",
    XDict [("guid", XStr "L");
           ("author", XStr "A");
           ("title", XStr "T");
           ("link", XStr "L");
           ("description", XStr "D");
           ("pubDate", XStr "P");
           ("enclosure", XDict [("@url", XStr "I"); ("@type", XStr "image/jpeg")]);
           ("category", XStr "C")])])])].

(** A parser that knows [one_item_feed] and refuses every other text. *)
Definition parse_link_only (text : string) : result xval :=
  if String.eqb text one_item_feed then Return link_only_dict
  else Raise ExpatError.

(** A parser that answers with [full_item_dict]. *)
Definition parse_full_item (text : string) : result xval :=
  Return full_item_dict.

(** The object right after a first start: both slots empty, no row. *)
Definition fresh_start : NewsHarvester := snd (__init__ 10 None).

(** A feed whose item has an empty string as its link. *)
Definition empty_link_dict : xval :=
  XDict [("rss", XDict [("channel", XDict [("item",
    XDict [("link", XStr ""); ("title", XStr "T")])])])].

(** A parser that answers with [empty_link_dict]. *)
Definition parse_empty_link (text : string) : result xval :=
  Return empty_link_dict.

(** The object with the link of [one_item_feed] already in its window. *)
Definition seen_L : NewsHarvester :=
  mkHarvester [PStr "L"; PStr ""] 10 "https://lenta.ru/rss/news" [].

(** The object after a first start and one turn on [full_item_dict]. *)
Definition after_first_item : NewsHarvester :=
  mkHarvester [PStr "L"; PStr ""] 10 "https://lenta.ru/rss/news"
    [Db.mkRow 1 (PStr "A") (PStr "C") (PStr "D") (PStr "I") (PStr "L")
       (PStr "P") (PStr "T")].

(** ** Notions used by the further properties *)

(** [sub] stands in [s] at [p] and nowhere before: what [s.index(sub)]
    finds. *)
Definition first_occurrence (s sub : string) (p : nat) : Prop :=
  occurs_at s sub p /\ forall q, q < p -> ~ occurs_at s sub q.

(** [s[-1]], when [s] is not empty. *)
Fixpoint str_last (s : string) : option ascii :=
  match s with
  | EmptyString => None
  | String c EmptyString => Some c
  | String _ s' => str_last s'
  end.




(** The console lines that announce a stored item. *)
Definition is_fresh_notice (e : event) : bool :=
  match e with
  | Print s => String.eqb s msg_fresh
  | PPrint _ => false
  end.

Definition fresh_notices (printed : list event) : nat :=
  List.length (filter is_fresh_notice printed).

(** * Properties *)

(** ** Python primitives *)

Lemma pyval_eqb_eq (a b : pyval) : pyval_eqb a b = true <-> a = b.
Proof.
  destruct a as [|x|s], b as [|y|t]; simpl; split; intro H;
    try reflexivity; try discriminate.
  - apply Z.eqb_eq in H. now subst.
  - injection H as ->. apply Z.eqb_refl.
  - apply String.eqb_eq in H. now subst.
  - injection H as ->. apply String.eqb_refl.
Qed.

Lemma pyval_eqb_neq (a b : pyval) : a <> b -> pyval_eqb a b = false.
Proof.
  intro H. destruct (pyval_eqb a b) eqn:E; [|reflexivity].
  apply pyval_eqb_eq in E. contradiction.
Qed.

Lemma list_contains_In (x : pyval) (l : list pyval) :
  list_contains x l = true <-> In x l.
Proof.
  unfold list_contains. rewrite existsb_exists. split.
  - intros [y [Hy Heq]]. apply pyval_eqb_eq in Heq. now subst.
  - intro H. exists x. split; [assumption | now apply pyval_eqb_eq].
Qed.


Lemma list_pop_snoc {A : Type} (l : list A) (x : A) :
  list_pop (l ++ [x]) = Some (x, l).
Proof.
  induction l as [|y l IH]; simpl.
  - reflexivity.
  - now rewrite IH.
Qed.

Lemma list_pop_length {A : Type} (l rest : list A) (x : A) :
  list_pop l = Some (x, rest) -> List.length l = S (List.length rest).
Proof.
  revert rest x. induction l as [|y l IH]; simpl; intros rest x H.
  - discriminate.
  - destruct (list_pop l) as [[z r]|] eqn:E.
    + injection H as <- <-. simpl. f_equal. now apply (IH r z).
    + injection H as <- <-. destruct l; [reflexivity | simpl in E].
      destruct (list_pop l) as [[? ?]|]; discriminate.
Qed.

Lemma list_setitem_length {A : Type} (l l' : list A) (i : nat) (x : A) :
  list_setitem l i x = Some l' -> List.length l' = List.length l.
Proof.
  revert i l'. induction l as [|y l IH]; intros [|i] l' H; simpl in H;
    try discriminate.
  - now injection H as <-.
  - destruct (list_setitem l i x) as [r|] eqn:E; [|discriminate].
    injection H as <-. simpl. f_equal. now apply (IH i).
Qed.

(** ** The window *)

(** The call on a window of two slots, case by case. *)
Lemma item_is_fresh_two (a b l : pyval) :
  item_is_fresh [a; b] l =
  if pyval_eqb l a || pyval_eqb l b then (false, [a; b]) else (true, [l; a]).
Proof.
  unfold item_is_fresh, list_contains. simpl.
  rewrite orb_false_r. now destruct (pyval_eqb l a || pyval_eqb l b).
Qed.

Lemma item_is_fresh_length (w : list pyval) (l : pyval) :
  List.length (snd (item_is_fresh w l)) = List.length w.
Proof.
  unfold item_is_fresh. destruct (list_contains l w); [reflexivity|].
  unfold list_insert. simpl.
  destruct (list_pop w) as [[y rest]|] eqn:E; simpl.
  - symmetry. now apply (list_pop_length w rest y).
  - destruct w; [reflexivity | simpl in E].
    destruct (list_pop w) as [[? ?]|]; discriminate.
Qed.

Lemma classify_length (links : list pyval) :
  forall w, List.length (snd (classify w links)) = List.length w.
Proof.
  induction links as [|l links IH]; intro w; simpl.
  - reflexivity.
  - destruct (item_is_fresh w l) as [fresh w'] eqn:E.
    specialize (IH w'). destruct (classify w' links) as [answers final].
    simpl in *. rewrite IH.
    change w' with (snd (fresh, w')). rewrite <- E.
    apply item_is_fresh_length.
Qed.

Lemma two_slots (w : list pyval) :
  List.length w = 2 -> exists a b, w = [a; b].
Proof.
  destruct w as [|a [|b [|c w]]]; simpl; intro H; try discriminate.
  now exists a, b.
Qed.

(** The window after a sequence of calls: the links answered [True], the
    most recent first, followed by what the window held at the start, cut to
    two. *)
Lemma classify_window (links : list pyval) :
  forall w, List.length w = 2 ->
  snd (classify w links) = firstn 2 (fresh_links w links ++ w).
Proof.
  induction links as [|l links IH]; intros w Hw.
  - destruct (two_slots w Hw) as [a [b ->]]. reflexivity.
  - simpl. destruct (two_slots w Hw) as [a [b ->]].
    rewrite item_is_fresh_two.
    destruct (pyval_eqb l a || pyval_eqb l b).
    + specialize (IH [a; b] eq_refl).
      destruct (classify [a; b] links) as [answers final]. simpl in *.
      now rewrite app_nil_r.
    + specialize (IH [l; a] eq_refl).
      destruct (classify [l; a] links) as [answers final]. simpl in *.
      rewrite IH, <- app_assoc. simpl.
      destruct (fresh_links [l; a] links) as [|x [|y more]]; reflexivity.
Qed.

(** C1.  A permalink string that equals neither tracked value is classified
    fresh: [item_is_fresh] answers [True], the link is inserted at position 0,
    the element that then stands at position 2 (the older tracked value) is
    popped, and the window becomes the new link followed by the former first
    slot.  Over any sequence of calls the window is therefore the links that
    were answered [True], most recent first, cut to two (with the initial
    slots behind them while fewer than two links were fresh). *)
Theorem item_is_fresh_new_link :
  (forall (a b : pyval) (l : string),
     PStr l <> a -> PStr l <> b ->
     list_insert 0 (PStr l) [a; b] = [PStr l; a; b] /\
     list_pop [PStr l; a; b] = Some (b, [PStr l; a]) /\
     item_is_fresh [a; b] (PStr l) = (true, [PStr l; a])) /\
  (forall (w : list pyval) (links : list pyval),
     List.length w = 2 ->
     snd (classify w links) = firstn 2 (fresh_links w links ++ w)).
Proof.
  split.
  - intros a b l Ha Hb. split; [reflexivity|]. split; [reflexivity|].
    rewrite item_is_fresh_two.
    now rewrite (pyval_eqb_neq _ _ Ha), (pyval_eqb_neq _ _ Hb).
  - intros w links Hw. now apply classify_window.
Qed.

Lemma item_is_fresh_new_link_witness :
  PStr "C" <> PStr "B" /\ PStr "C" <> PStr "A" /\
  item_is_fresh [PStr "B"; PStr "A"] (PStr "C") = (true, [PStr "C"; PStr "B"]) /\
  snd (classify empty_window [PStr "A"; PStr "B"; PStr "B"; PStr "C"])
  = [PStr "C"; PStr "B"].
Proof.
  assert (H1 : PStr "C" <> PStr "B") by discriminate.
  assert (H2 : PStr "C" <> PStr "A") by discriminate.
  split; [exact H1|]. split; [exact H2|]. split.
  - exact (proj2 (proj2 (proj1 item_is_fresh_new_link
                           (PStr "B") (PStr "A") "C" H1 H2))).
  - exact (proj2 item_is_fresh_new_link empty_window
             [PStr "A"; PStr "B"; PStr "B"; PStr "C"] eq_refl).
Defined.

(** C2.  A permalink string that equals one of the two tracked values is
    classified duplicate: [item_is_fresh] answers [False] and both slots keep
    their values. *)
Theorem item_is_fresh_tracked_link :
  forall (a b : pyval) (l : string),
    PStr l = a \/ PStr l = b ->
    item_is_fresh [a; b] (PStr l) = (false, [a; b]).
Proof.
  intros a b l H. rewrite item_is_fresh_two.
  assert (E : pyval_eqb (PStr l) a || pyval_eqb (PStr l) b = true).
  { apply orb_true_iff. destruct H as [H|H]; [left|right];
      now apply pyval_eqb_eq. }
  now rewrite E.
Qed.

Lemma item_is_fresh_tracked_link_witness :
  (PStr "A" = PStr "B" \/ PStr "A" = PStr "A") /\
  item_is_fresh [PStr "B"; PStr "A"] (PStr "A")
  = (false, [PStr "B"; PStr "A"]).
Proof.
  assert (H : PStr "A" = PStr "B" \/ PStr "A" = PStr "A") by (right; reflexivity).
  split; [exact H|].
  exact (item_is_fresh_tracked_link (PStr "B") (PStr "A") "A" H).
Defined.

(** Which of three pairwise distinct links are all answered [True] from the
    empty window: exactly those whose first two are not the empty string,
    the value both slots start with. *)
Lemma three_fresh_iff (L1 L2 L3 : string) :
  L1 <> L2 -> L1 <> L3 -> L2 <> L3 ->
  (fst (classify empty_window [PStr L1; PStr L2; PStr L3]) = [true; true; true]
   <-> L1 <> "" /\ L2 <> "").
Proof.
  intros H12 H13 H23. unfold empty_window. simpl.
  rewrite !item_is_fresh_two. simpl.
  destruct (String.eqb_spec L1 "") as [E1|E1]; simpl.
  - rewrite !item_is_fresh_two. simpl.
    destruct (String.eqb L2 ""); simpl; rewrite ?item_is_fresh_two; simpl;
      repeat match goal with |- context [if ?c then _ else _] => destruct c end;
      simpl; split; try discriminate; intros [? ?]; contradiction.
  - rewrite !item_is_fresh_two. simpl.
    destruct (String.eqb_spec L2 L1) as [E21|E21]; [now subst|]. simpl.
    destruct (String.eqb_spec L2 "") as [E2|E2]; simpl.
    + rewrite item_is_fresh_two. simpl.
      destruct (String.eqb L3 L1 || String.eqb L3 ""); simpl;
        split; try discriminate; intros [? ?]; contradiction.
    + rewrite item_is_fresh_two. simpl.
      destruct (String.eqb_spec L3 L2) as [E32|E32]; [now subst|]. simpl.
      destruct (String.eqb_spec L3 L1) as [E31|E31]; [now subst|]. simpl.
      split; [now intros _ | reflexivity].
Qed.

(** C6.  Three pairwise distinct links that are each answered [True] from the
    window [["", ""]] leave the window without the first of them, so asking
    for it again answers [True]; and the sequence A, B, B, A, C, A gives the
    answers and the windows of the specification's example. *)
Theorem evicted_link_is_fresh_again :
  (forall L1 L2 L3 : string,
     L1 <> L2 -> L1 <> L3 -> L2 <> L3 ->
     fst (classify empty_window [PStr L1; PStr L2; PStr L3])
     = [true; true; true] ->
     snd (classify empty_window [PStr L1; PStr L2; PStr L3])
     = [PStr L3; PStr L2] /\
     item_is_fresh [PStr L3; PStr L2] (PStr L1) = (true, [PStr L1; PStr L3]) /\
     fst (classify empty_window [PStr L1; PStr L2; PStr L3; PStr L1])
     = [true; true; true; true]) /\
  classify_trace empty_window
    [PStr "A"; PStr "B"; PStr "B"; PStr "A"; PStr "C"; PStr "A"]
  = [(true, [PStr "A"; PStr ""]);
     (true, [PStr "B"; PStr "A"]);
     (false, [PStr "B"; PStr "A"]);
     (false, [PStr "B"; PStr "A"]);
     (true, [PStr "C"; PStr "B"]);
     (true, [PStr "A"; PStr "C"])].
Proof.
  split; [|reflexivity].
  intros L1 L2 L3 H12 H13 H23 Hfresh.
  apply (three_fresh_iff L1 L2 L3 H12 H13 H23) in Hfresh.
  destruct Hfresh as [E1 E2].
  unfold empty_window. simpl. rewrite !item_is_fresh_two. simpl.
  destruct (String.eqb_spec L1 "") as [?|_]; [contradiction|]. simpl.
  rewrite !item_is_fresh_two. simpl.
  destruct (String.eqb_spec L2 L1) as [?|_]; [now subst|].
  destruct (String.eqb_spec L2 "") as [?|_]; [contradiction|]. simpl.
  rewrite !item_is_fresh_two. simpl.
  destruct (String.eqb_spec L3 L2) as [?|_]; [now subst|].
  destruct (String.eqb_spec L3 L1) as [?|_]; [now subst|]. simpl.
  rewrite !item_is_fresh_two. simpl.
  destruct (String.eqb_spec L1 L3) as [?|_]; [contradiction|].
  destruct (String.eqb_spec L1 L2) as [?|_]; [contradiction|]. simpl.
  repeat split.
Qed.

Lemma evicted_link_is_fresh_again_witness :
  fst (classify empty_window [PStr "A"; PStr "B"; PStr "C"])
  = [true; true; true] /\
  item_is_fresh [PStr "C"; PStr "B"] (PStr "A") = (true, [PStr "A"; PStr "C"]).
Proof.
  assert (H : fst (classify empty_window [PStr "A"; PStr "B"; PStr "C"])
              = [true; true; true]) by reflexivity.
  split; [exact H|].
  refine (proj1 (proj2 (proj1 evicted_link_is_fresh_again "A" "B" "C" _ _ _ H)));
    discriminate.
Defined.

(** With the empty string as the second link the three are not all answered
    [True], and the first link is still tracked at the end. *)
Example empty_second_link_keeps_first :
  fst (classify empty_window [PStr "A"; PStr ""; PStr "B"; PStr "A"])
  = [true; false; true; false].
Proof. reflexivity. Qed.

(** C9.  In every window [item_is_fresh] can produce from [["", ""]] the two
    slots differ, unless both are the empty string. *)
Theorem reachable_slots_differ :
  forall w, reachable w ->
  exists a b, w = [a; b] /\ (a = b -> a = PStr "" /\ b = PStr "").
Proof.
  intros w H. induction H as [|w l H [a [b [-> IH]]]].
  - exists (PStr ""), (PStr ""). split; [reflexivity | intros _; now split].
  - rewrite item_is_fresh_two.
    destruct (pyval_eqb l a || pyval_eqb l b) eqn:E; simpl.
    + now exists a, b.
    + exists l, a. split; [reflexivity|]. intro Heq. subst a.
      apply orb_false_iff in E. destruct E as [E _].
      assert (pyval_eqb l l = true) by now apply pyval_eqb_eq.
      congruence.
Qed.

Lemma reachable_slots_differ_witness :
  reachable [PStr "B"; PStr "A"] /\
  exists a b, [PStr "B"; PStr "A"] = [a; b] /\ (a = b -> a = PStr "" /\ b = PStr "").
Proof.
  assert (H : reachable [PStr "B"; PStr "A"]).
  { exact (reachable_call _ (PStr "B")
             (reachable_call _ (PStr "A") reachable_start)). }
  split; [exact H|]. exact (reachable_slots_differ _ H).
Defined.

(** ** Strings *)

Lemma str_append_assoc (s t u : string) :
  ((s ++ t) ++ u)%string = (s ++ (t ++ u))%string.
Proof.
  induction s as [|c s IH]; simpl; [reflexivity | now rewrite IH].
Qed.

Lemma substring_0_length_le (m : nat) (s : string) :
  String.length (substring 0 m s) <= String.length s.
Proof.
  revert m. induction s as [|c s IH]; intros [|m]; simpl; try lia.
  specialize (IH m). lia.
Qed.

Lemma prefix_occurs_at (s sub : string) :
  prefix sub s = true <-> occurs_at s sub 0.
Proof.
  unfold occurs_at. rewrite prefix_correct. split.
  - intro H. split; [|exact H]. simpl.
    rewrite <- H at 1. apply substring_0_length_le.
  - now intros [_ H].
Qed.

Lemma occurs_at_shift (c : ascii) (s sub : string) (q : nat) :
  occurs_at (String c s) sub (S q) <-> occurs_at s sub q.
Proof.
  unfold occurs_at. simpl. split; intros [Hlen Heq]; (split; [lia | exact Heq]).
Qed.

Lemma occurs_at_empty (sub : string) (q : nat) :
  occurs_at "" sub q -> q = 0.
Proof.
  unfold occurs_at. simpl. intros [Hlen _]. lia.
Qed.

Lemma str_index_unfold (s sub : string) :
  str_index s sub =
  if prefix sub s then Some 0
  else match s with
       | EmptyString => None
       | String _ s' => option_map S (str_index s' sub)
       end.
Proof. destruct s; reflexivity. Qed.

(** [str_index] finds the first position at which the substring stands. *)
Lemma str_index_Some (s sub : string) :
  forall p, str_index s sub = Some p ->
  occurs_at s sub p /\ forall q, q < p -> ~ occurs_at s sub q.
Proof.
  induction s as [|c s IH]; intros p H; rewrite str_index_unfold in H.
  - destruct (prefix sub "") eqn:E; [|discriminate].
    injection H as <-. split; [now apply prefix_occurs_at | intros q Hq; lia].
  - destruct (prefix sub (String c s)) eqn:E.
    + injection H as <-. split; [now apply prefix_occurs_at | intros q Hq; lia].
    + destruct (str_index s sub) as [p'|] eqn:E'; [|discriminate].
      injection H as <-. destruct (IH p' eq_refl) as [Hocc Hfirst]. split.
      * now apply occurs_at_shift.
      * intros [|q] Hq Hq'.
        -- apply prefix_occurs_at in Hq'. congruence.
        -- apply occurs_at_shift in Hq'. apply (Hfirst q); [lia | exact Hq'].
Qed.

(** [str_index] raises only when the substring stands nowhere. *)
Lemma str_index_None (s sub : string) :
  str_index s sub = None -> forall q, ~ occurs_at s sub q.
Proof.
  induction s as [|c s IH]; intros H q Hq; rewrite str_index_unfold in H.
  - destruct (prefix sub "") eqn:E; [discriminate|].
    pose proof (occurs_at_empty sub q Hq) as ->.
    apply prefix_occurs_at in Hq. congruence.
  - destruct (prefix sub (String c s)) eqn:E; [discriminate|].
    destruct (str_index s sub) as [p'|] eqn:E'; [discriminate|].
    destruct q as [|q].
    + apply prefix_occurs_at in Hq. congruence.
    + apply occurs_at_shift in Hq. now apply (IH eq_refl q).
Qed.

Lemma str_index_first (s sub : string) (p : nat) :
  occurs_at s sub p -> (forall q, q < p -> ~ occurs_at s sub q) ->
  str_index s sub = Some p.
Proof.
  intros Hocc Hfirst. destruct (str_index s sub) as [p'|] eqn:E.
  - destruct (str_index_Some s sub p' E) as [Hocc' Hfirst'].
    destruct (Nat.lt_trichotomy p p') as [Hlt|[->|Hlt]].
    + now destruct (Hfirst' p Hlt).
    + reflexivity.
    + now destruct (Hfirst p' Hlt).
  - now destruct (str_index_None s sub E p).
Qed.

Lemma str_index_once (s sub : string) (p : nat) :
  occurs_once_at s sub p -> str_index s sub = Some p.
Proof.
  intros [Hocc Honce]. apply str_index_first; [exact Hocc|].
  intros q Hq Hocc'. apply Honce in Hocc'. lia.
Qed.

(** [s[:p] + sub] is [s[:p + len(sub)]] when [sub] stands at [p]. *)
Lemma str_upto_occurrence (s sub : string) :
  forall p, occurs_at s sub p ->
  (str_upto s p ++ sub)%string = str_upto s (p + String.length sub).
Proof.
  unfold str_upto. induction s as [|c s IH]; intros [|p] Hocc.
  - destruct Hocc as [_ Heq]. simpl. rewrite <- Heq at 1.
    now destruct (String.length sub).
  - apply occurs_at_empty in Hocc. discriminate.
  - destruct Hocc as [_ Heq]. simpl (0 + _). rewrite Heq.
    now destruct sub.
  - apply occurs_at_shift in Hocc. simpl. f_equal. now apply IH.
Qed.

(** ** The feed normalizer *)

(** The cut at the first place the delimiter stands. *)
Lemma rss_cutter_first_occurrence (T D : string) (p : nat) :
  occurs_at T D p -> (forall q, q < p -> ~ occurs_at T D q) ->
  rss_cutter T D
  = ([], Return (str_upto T (p + String.length D) ++ closing_markup)%string).
Proof.
  intros Hocc Hfirst. unfold rss_cutter.
  rewrite (str_index_first T D p Hocc Hfirst).
  now rewrite <- (str_upto_occurrence T D p Hocc), str_append_assoc.
Qed.

(** ** Element nesting *)

Lemma scan_app (s1 s2 : string) :
  forall st,
  Xml.scan (s1 ++ s2)%string st =
  match Xml.scan s1 st with
  | Some st' => Xml.scan s2 st'
  | None => None
  end.
Proof.
  induction s1 as [|c s1 IH]; intro st; simpl.
  - reflexivity.
  - destruct (Xml.scan_char st c); [apply IH | reflexivity].
Qed.

Lemma prefix_app (p b x : string) :
  prefix p b = true -> prefix p (b ++ x)%string = true.
Proof.
  revert b. induction p as [|c p IH]; intros b H.
  - now destruct (b ++ x)%string.
  - destruct b as [|d b]; [discriminate|]. simpl in *.
    destruct (ascii_dec c d); [now apply IH | discriminate].
Qed.

Lemma prefix_cons (c d : ascii) (p b : string) :
  prefix (String c p) (String d b) = true -> c = d /\ prefix p b = true.
Proof.
  simpl. destruct (ascii_dec c d); [now split | discriminate].
Qed.

Lemma prefix_cons_neq (c d : ascii) (p b : string) :
  c <> d -> prefix (String c p) (String d b) = false.
Proof.
  intro H. simpl. now destruct (ascii_dec c d).
Qed.

(** A construct keeps its terminator while its body grows. *)
Lemma terminator_app (b x stop : string) :
  Xml.terminator b = Some stop -> Xml.terminator (b ++ x)%string = Some stop.
Proof.
  unfold Xml.terminator. intro H.
  destruct (prefix "!--" b) eqn:E1.
  { now rewrite (prefix_app _ _ x E1). }
  destruct (prefix "![CDATA[" b) eqn:E2.
  { rewrite (prefix_app _ _ x E2).
    destruct b as [|c b]; [discriminate|].
    apply prefix_cons in E2. destruct E2 as [<- E2].
    destruct b as [|d b]; [discriminate|].
    apply prefix_cons in E2. destruct E2 as [<- E2].
    exact H. }
  destruct (prefix "?" b) eqn:E3; [|discriminate].
  destruct b as [|c b]; [discriminate|].
  apply prefix_cons in E3. destruct E3 as [<- _].
  simpl. destruct (b ++ x)%string; exact H.
Qed.

Lemma terminator_cases (b stop : string) :
  Xml.terminator b = Some stop -> stop = "--" \/ stop = "]]" \/ stop = "?".
Proof.
  unfold Xml.terminator. intro H.
  destruct (prefix "!--" b); [injection H as <-; now left|].
  destruct (prefix "![CDATA[" b); [injection H as <-; right; now left|].
  destruct (prefix "?" b); [injection H as <-; right; now right | discriminate].
Qed.

Lemma str_length_app (s t : string) :
  String.length (s ++ t) = String.length s + String.length t.
Proof.
  induction s as [|c s IH]; simpl; [reflexivity | now rewrite IH].
Qed.

(** Whether a body ends with [suffix] is decided by its last characters. *)
Lemma ends_with_app (suffix b x : string) :
  String.length suffix <= String.length x ->
  Xml.ends_with suffix (b ++ x)%string = Xml.ends_with suffix x.
Proof.
  intro Hlen. induction b as [|c b IH]; [reflexivity|].
  simpl. rewrite IH.
  destruct (String.eqb_spec suffix (String c (b ++ x))) as [E|_];
    [|reflexivity].
  apply (f_equal String.length) in E. simpl in E.
  rewrite str_length_app in E. lia.
Qed.

Lemma str_append_nil (s : string) : (s ++ "")%string = s.
Proof.
  induction s as [|c s IH]; simpl; [reflexivity | now rewrite IH].
Qed.

(** Inside a comment, a CDATA section or a processing instruction the
    scanner only collects characters until a closing bracket comes. *)
Lemma scan_inside (opens : list string) (r : nat) (stop text : string) :
  Xml.no_closing_bracket text ->
  forall b, Xml.terminator b = Some stop ->
  Xml.scan text (Xml.mkScanner opens (Some b) r)
  = Some (Xml.mkScanner opens (Some (b ++ text)%string) r).
Proof.
  induction text as [|c text IH]; intros Hfree b Hb.
  - now rewrite str_append_nil.
  - destruct Hfree as [Hc Hfree]. simpl. unfold Xml.scan_char. simpl.
    rewrite Hb.
    destruct (Ascii.eqb_spec c ">") as [?|_]; [contradiction|]. simpl.
    rewrite (IH Hfree _ (terminator_app b _ stop Hb)).
    now rewrite str_append_assoc.
Qed.

Lemma scan_bracket_inside (opens : list string) (r : nat) (stop b : string) :
  Xml.terminator b = Some stop -> Xml.ends_with stop b = false ->
  Xml.scan_char (Xml.mkScanner opens (Some b) r) ">"
  = Some (Xml.mkScanner opens (Some (b ++ ">")%string) r).
Proof.
  intros Hb Hend. unfold Xml.scan_char. simpl. now rewrite Hb, Hend.
Qed.

(** An opening bracket inside a tag is refused. *)
Lemma scan_bracket_in_tag (opens : list string) (r : nat) (b : string) :
  Xml.terminator b = None ->
  Xml.scan_char (Xml.mkScanner opens (Some b) r) "<" = None.
Proof.
  intro Hb. unfold Xml.scan_char. simpl. now rewrite Hb.
Qed.

(** The closing markup does not end a construct that is still open. *)
Lemma scan_closing_inside (opens : list string) (r : nat) (stop b : string) :
  Xml.terminator b = Some stop ->
  Xml.scan closing_markup (Xml.mkScanner opens (Some b) r)
  = Some (Xml.mkScanner opens (Some (b ++ closing_markup)%string) r).
Proof.
  intro Hb.
  assert (Hend : forall x, 2 <= String.length x ->
                 Xml.ends_with stop x = false ->
                 Xml.ends_with stop (b ++ x)%string = false).
  { intros x Hx Hfalse. rewrite ends_with_app; [exact Hfalse|].
    destruct (terminator_cases b stop Hb) as [-> | [-> | ->]]; simpl; lia. }
  assert (Hno : forall x, x = "</channel" \/ x = "</channel></rss" ->
                Xml.ends_with stop x = false).
  { intros x Hx.
    destruct (terminator_cases b stop Hb) as [-> | [-> | ->]];
      destruct Hx as [-> | ->]; reflexivity. }
  change closing_markup
    with ("</channel" ++ String ">" ("</rss" ++ String ">" ""))%string.
  rewrite scan_app.
  rewrite (scan_inside opens r stop "</channel") with (b := b);
    [|simpl; repeat split; discriminate | exact Hb].
  cbn [Xml.scan].
  rewrite (scan_bracket_inside opens r stop);
    [|now apply terminator_app | apply Hend; [simpl; lia | apply Hno; now left]].
  rewrite scan_app.
  rewrite (scan_inside opens r stop "</rss");
    [|simpl; repeat split; discriminate | now do 2 apply terminator_app].
  cbn [Xml.scan].
  rewrite (scan_bracket_inside opens r stop);
    [|now do 3 apply terminator_app|].
  - now rewrite !str_append_assoc.
  - rewrite !str_append_assoc. apply Hend; [simpl; lia | apply Hno; now right].
Qed.

(** From which states the closing markup leaves a nested document. *)
Lemma scan_closing_inv (st : Xml.scanner) :
  Xml.scan closing_markup st = Some (Xml.mkScanner [] None 1) ->
  st = Xml.in_channel.
Proof.
  destruct st as [opens [b|] r]; intro H.
  - destruct (Xml.terminator b) as [stop|] eqn:Hb.
    + rewrite (scan_closing_inside opens r stop b Hb) in H. discriminate.
    + unfold closing_markup in H. cbn [Xml.scan] in H.
      rewrite (scan_bracket_in_tag opens r b Hb) in H. discriminate.
  - destruct opens as [|top [|top2 below]].
    + discriminate.
    + unfold closing_markup in H. cbn in H.
      destruct (String.eqb top "channel"); [cbn in H|]; discriminate.
    + unfold closing_markup in H. cbn in H.
      destruct (String.eqb_spec top "channel") as [->|_]; [|discriminate].
      cbn in H.
      destruct (String.eqb_spec top2 "rss") as [->|_]; [|discriminate].
      now injection H as -> ->.
Qed.

Lemma scan_closing_in_channel :
  Xml.scan closing_markup Xml.in_channel = Some (Xml.mkScanner [] None 1).
Proof. reflexivity. Qed.

(** The cut text followed by the closing markup is nested exactly when the
    cut text leaves [rss] and [channel], and nothing else, open. *)
Lemma well_nested_closing (text : string) :
  Xml.well_nested (text ++ closing_markup)%string = true
  <-> Xml.scan text Xml.start = Some Xml.in_channel.
Proof.
  unfold Xml.well_nested. rewrite scan_app. split.
  - destruct (Xml.scan text Xml.start) as [st|]; [|discriminate].
    intro H. f_equal. apply scan_closing_inv.
    destruct (Xml.scan closing_markup st) as [[[|? ?] [?|] [|[|?]]]|];
      try discriminate. reflexivity.
  - intros ->. now rewrite scan_closing_in_channel.
Qed.

(** ** The feed normalizer, continued *)

Lemma occurs_at_from (sub : string) (n : nat) :
  forall s q, n <= String.length s ->
  (occurs_at s sub (n + q) <-> occurs_at (str_from s n) sub q).
Proof.
  induction n as [|n IH]; intros s q Hn.
  - now destruct s.
  - destruct s as [|c s]; [simpl in Hn; lia|].
    simpl. rewrite (occurs_at_shift c s sub (n + q)).
    apply IH. simpl in Hn. lia.
Qed.

(** Exactly one occurrence, decided by two searches: the first finds it,
    the second, started right after it, finds nothing. *)
Lemma occurs_once_by_search (s sub : string) (p : nat) :
  str_index s sub = Some p ->
  str_index (str_from s (S p)) sub = None ->
  occurs_once_at s sub p.
Proof.
  intros Hfirst Hrest.
  destruct (str_index_Some s sub p Hfirst) as [Hocc Hbefore].
  split; [exact Hocc|]. intros q Hq.
  destruct (Nat.lt_trichotomy q p) as [Hlt|[->|Hlt]].
  - now destruct (Hbefore q Hlt).
  - reflexivity.
  - exfalso. replace q with (S p + (q - S p)) in Hq by lia.
    apply occurs_at_from in Hq.
    + exact (str_index_None _ sub Hrest _ Hq).
    + destruct Hq as [Hlen _]. lia.
Qed.

(** C3, as the code has it.  For a text that contains the delimiter exactly
    once, at position [p], [rss_cutter] prints nothing and returns the text
    up to and including the delimiter followed by ["</channel></rss>"].  The
    result has its elements properly nested exactly when the kept part
    leaves [rss] and, inside it, [channel] open and nothing else; for other
    texts the result is not a well-formed document. *)
Theorem rss_cutter_cuts_after_delimiter :
  forall (T D : string) (p : nat),
    occurs_once_at T D p ->
    rss_cutter T D
    = ([], Return (str_upto T (p + String.length D) ++ closing_markup)%string)
    /\ (Xml.well_nested (str_upto T (p + String.length D) ++ closing_markup)%string
          = true
        <-> Xml.scan (str_upto T (p + String.length D)) Xml.start
            = Some Xml.in_channel).
Proof.
  intros T D p [Hocc Honce]. split.
  - apply rss_cutter_first_occurrence; [exact Hocc|].
    intros q Hq Hocc'. apply Honce in Hocc'. lia.
  - apply well_nested_closing.
Qed.

Lemma rss_cutter_cuts_after_delimiter_witness :
  occurs_once_at one_item_feed "</item>" 34 /\
  rss_cutter one_item_feed "</item>"
  = ([], Return "<rss><channel><item><link>L</link></item></channel></rss>") /\
  Xml.well_nested "<rss><channel><item><link>L</link></item></channel></rss>"
  = true.
Proof.
  assert (H : occurs_once_at one_item_feed "</item>" 34).
  { apply occurs_once_by_search; reflexivity. }
  split; [exact H|].
  destruct (rss_cutter_cuts_after_delimiter one_item_feed "</item>" 34 H)
    as [Hcut Hnested].
  split; [exact Hcut|]. apply Hnested. reflexivity.
Defined.

(** C3, as the specification states it, fails: the text ["<item>x</item>"]
    contains the delimiter exactly once, and what [rss_cutter] returns for it
    closes two elements that were never opened. *)
Lemma rss_cutter_result_not_always_nested :
  occurs_once_at "<item>x</item>" "</item>" 7 /\
  snd (rss_cutter "<item>x</item>" "</item>")
  = Return "<item>x</item></channel></rss>" /\
  Xml.well_nested "<item>x</item></channel></rss>" = false.
Proof.
  split; [apply occurs_once_by_search; reflexivity|].
  split; reflexivity.
Qed.

(** C4, what the code does.  For a text in which the delimiter stands
    nowhere, [rss_cutter] prints the error message and returns it as an
    ordinary [str], the way it returns a cut document: nothing is raised and
    no value of another type is returned. *)
Theorem rss_cutter_missing_delimiter_returns_text :
  forall T D : string,
    (forall q, ~ occurs_at T D q) ->
    rss_cutter T D = ([Print (err_text D)], Return (err_text D)).
Proof.
  intros T D Hnone. unfold rss_cutter.
  destruct (str_index T D) as [p|] eqn:E; [|reflexivity].
  destruct (str_index_Some T D p E) as [Hocc _].
  now destruct (Hnone p).
Qed.

Lemma rss_cutter_missing_delimiter_returns_text_witness :
  (forall q, ~ occurs_at "<html>Service Unavailable</html>" "</item>" q) /\
  rss_cutter "<html>Service Unavailable</html>" "</item>"
  = ([Print (err_text "</item>")], Return (err_text "</item>")).
Proof.
  assert (H : forall q, ~ occurs_at "<html>Service Unavailable</html>" "</item>" q).
  { apply str_index_None. reflexivity. }
  split; [exact H|].
  exact (rss_cutter_missing_delimiter_returns_text _ _ H).
Defined.

(** The returned message is not a nested document either: it holds the
    delimiter, an end tag, and no start tag before it. *)
Example err_text_is_not_nested :
  Xml.well_nested (err_text "</item>") = false.
Proof. reflexivity. Qed.

(** ** The table and the constructor *)

Lemma insert_desc_perm (r : Db.row) (rows : list Db.row) :
  Permutation (r :: rows) (Db.insert_desc r rows).
Proof.
  induction rows as [|r' rows IH]; simpl.
  - apply Permutation_refl.
  - destruct (Z.leb (Db.id r') (Db.id r)).
    + apply Permutation_refl.
    + eapply Permutation_trans; [apply perm_swap|].
      now apply perm_skip.
Qed.

Lemma insert_desc_hd (r x : Db.row) (rows : list Db.row) :
  id_desc x r -> HdRel id_desc x rows -> HdRel id_desc x (Db.insert_desc r rows).
Proof.
  intros Hx Hhd. destruct rows as [|r' rows]; simpl.
  - now constructor.
  - destruct (Z.leb (Db.id r') (Db.id r)); constructor; [exact Hx|].
    now inversion Hhd.
Qed.

Lemma insert_desc_sorted (r : Db.row) (rows : list Db.row) :
  Sorted id_desc rows -> Sorted id_desc (Db.insert_desc r rows).
Proof.
  induction 1 as [|r' rows Hsorted IH Hhd]; simpl.
  - repeat constructor.
  - destruct (Z.leb_spec (Db.id r') (Db.id r)) as [Hle|Hlt].
    + constructor; [now constructor | now constructor].
    + constructor; [exact IH|].
      apply insert_desc_hd; [unfold id_desc; lia | exact Hhd].
Qed.

(** The rows of the query of line 82 are the rows of the table, the most
    recently inserted (largest key) first. *)
Lemma order_by_id_desc_sorted (t : Db.table) :
  Permutation t (fold_right Db.insert_desc [] t) /\
  Sorted id_desc (fold_right Db.insert_desc [] t).
Proof.
  induction t as [|r t [IHp IHs]]; simpl.
  - split; constructor.
  - split.
    + eapply Permutation_trans; [|apply insert_desc_perm]. now apply perm_skip.
    + now apply insert_desc_sorted.
Qed.

Lemma seed_window_length (names : list string) (results : list (list pyval))
  (w : list pyval) :
  List.length (snd (seed_window names results w)) = List.length w.
Proof.
  unfold seed_window, assign_link.
  destruct (list_index names "link") as [i|]; [|reflexivity].
  destruct (list_getitem results 0) as [r0|]; [|reflexivity].
  destruct (list_getitem r0 i) as [v0|]; [|reflexivity].
  destruct (list_setitem w 0 v0) as [w1|] eqn:E1; [|reflexivity].
  apply list_setitem_length in E1.
  destruct (list_getitem results 1) as [r1|]; [|exact E1].
  destruct (list_getitem r1 i) as [v1|]; [|exact E1].
  destruct (list_setitem w1 1 v1) as [w2|] eqn:E2; [|exact E1].
  apply list_setitem_length in E2. simpl. congruence.
Qed.

Lemma seeded_length (timer : Z) (stored : Db.table) (names : list string)
  (results : list (list pyval)) :
  List.length (two_last_news_link (snd (seeded timer stored names results))) = 2.
Proof.
  unfold seeded.
  pose proof (seed_window_length names results empty_window) as H.
  destruct (seed_window names results empty_window) as [printed window].
  exact H.
Qed.

(** The constructor, by the rows of the table in the order of the query. *)
Lemma init_by_order (timer : Z) (t : Db.table) :
  __init__ timer (Some t) =
  match fold_right Db.insert_desc [] t with
  | newest :: second :: _ =>
      ([], mkHarvester [Db.link newest; Db.link second] timer
             "https://lenta.ru/rss/news" t)
  | [only] =>
      ([Print msg_missing_records],
       mkHarvester [Db.link only; PStr ""] timer "https://lenta.ru/rss/news" t)
  | [] =>
      ([Print msg_missing_records],
       mkHarvester empty_window timer "https://lenta.ru/rss/news" t)
  end.
Proof.
  unfold __init__, Db.select_order_by_id_desc.
  destruct (fold_right Db.insert_desc [] t) as [|r1 [|r2 rest]]; reflexivity.
Qed.

(** C5.  The constructor seeds the window with the [link] cells of the two
    rows with the largest keys, the larger first: a table with the rows X
    then Y (Y inserted later) gives [[Y, X]].  With one row the second slot
    stays the empty string, with none (or no table yet) both do, and the
    message about the missing records is printed; when the cursor reports no
    column named [link] both slots stay empty and the message about the
    column is printed.  In every case the object is built. *)
Theorem constructor_seeds_window :
  (forall timer t,
     Permutation t (fold_right Db.insert_desc [] t) /\
     Sorted id_desc (fold_right Db.insert_desc [] t) /\
     __init__ timer (Some t) =
     match fold_right Db.insert_desc [] t with
     | newest :: second :: _ =>
         ([], mkHarvester [Db.link newest; Db.link second] timer
                "https://lenta.ru/rss/news" t)
     | [only] =>
         ([Print msg_missing_records],
          mkHarvester [Db.link only; PStr ""] timer
            "https://lenta.ru/rss/news" t)
     | [] =>
         ([Print msg_missing_records],
          mkHarvester empty_window timer "https://lenta.ru/rss/news" t)
     end) /\
  (forall timer x y,
     (Db.id x < Db.id y)%Z ->
     __init__ timer (Some [x; y])
     = ([], mkHarvester [Db.link y; Db.link x] timer
              "https://lenta.ru/rss/news" [x; y])) /\
  (forall timer x,
     __init__ timer (Some [x])
     = ([Print msg_missing_records],
        mkHarvester [Db.link x; PStr ""] timer "https://lenta.ru/rss/news" [x])) /\
  (forall timer,
     __init__ timer (Some [])
     = ([Print msg_missing_records],
        mkHarvester [PStr ""; PStr ""] timer "https://lenta.ru/rss/news" []) /\
     __init__ timer None
     = ([Print msg_missing_records],
        mkHarvester [PStr ""; PStr ""] timer "https://lenta.ru/rss/news" [])) /\
  (forall timer stored names results,
     list_index names "link" = None ->
     seeded timer stored names results
     = ([Print msg_missing_link_column],
        mkHarvester [PStr ""; PStr ""] timer "https://lenta.ru/rss/news" stored)).
Proof.
  split; [|split; [|split; [|split]]].
  - intros timer t. split; [|split].
    + apply order_by_id_desc_sorted.
    + apply order_by_id_desc_sorted.
    + apply init_by_order.
  - intros timer x y Hxy. rewrite init_by_order. simpl.
    destruct (Z.leb_spec (Db.id y) (Db.id x)) as [Hle|_]; [lia | reflexivity].
  - intros timer x. reflexivity.
  - intro timer. split; reflexivity.
  - intros timer stored names results H.
    unfold seeded, seed_window. now rewrite H.
Qed.

Lemma constructor_seeds_window_witness :
  (Db.id row_X < Db.id row_Y)%Z /\
  two_last_news_link (snd (__init__ 10 (Some [row_X; row_Y])))
  = [PStr "Y"; PStr "X"] /\
  list_index ["id"; "title"] "link" = None /\
  two_last_news_link (snd (seeded 10 [] ["id"; "title"] [[PInt 1; PStr "t"]]))
  = [PStr ""; PStr ""].
Proof.
  assert (H : (Db.id row_X < Db.id row_Y)%Z) by reflexivity.
  assert (H' : list_index ["id"; "title"] "link" = None) by reflexivity.
  split; [exact H|]. split.
  - now rewrite (proj1 (proj2 constructor_seeds_window) 10%Z row_X row_Y H).
  - split; [exact H'|].
    now rewrite (proj2 (proj2 (proj2 (proj2 constructor_seeds_window)))
                   10%Z [] ["id"; "title"] [[PInt 1; PStr "t"]] H').
Defined.

(** C7.  The window has exactly two slots when the constructor returns,
    whatever the cursor reported, and every call of [item_is_fresh], with
    either answer, leaves as many slots as it found: the insertion at the
    front is followed by the removal of the last, oldest, element. *)
Theorem window_has_two_slots :
  (forall timer file,
     List.length (two_last_news_link (snd (__init__ timer file))) = 2) /\
  (forall timer stored names results,
     List.length (two_last_news_link (snd (seeded timer stored names results)))
     = 2) /\
  (forall w l,
     List.length w = 2 -> List.length (snd (item_is_fresh w l)) = 2) /\
  (forall a b l,
     fst (item_is_fresh [a; b] l) = true ->
     list_pop (list_insert 0 l [a; b]) = Some (b, snd (item_is_fresh [a; b] l))) /\
  (forall timer file links,
     List.length
       (snd (classify (two_last_news_link (snd (__init__ timer file))) links))
     = 2).
Proof.
  split; [|split; [|split; [|split]]].
  - intros timer file. unfold __init__. apply seeded_length.
  - intros. apply seeded_length.
  - intros w l Hw. now rewrite item_is_fresh_length.
  - intros a b l. rewrite item_is_fresh_two.
    now destruct (pyval_eqb l a || pyval_eqb l b).
  - intros timer file links. rewrite classify_length.
    unfold __init__. apply seeded_length.
Qed.

Lemma window_has_two_slots_witness :
  List.length [PStr "B"; PStr "A"] = 2 /\
  List.length (snd (item_is_fresh [PStr "B"; PStr "A"] (PStr "C"))) = 2 /\
  List.length (snd (item_is_fresh [PStr "B"; PStr "A"] (PStr "A"))) = 2 /\
  fst (item_is_fresh [PStr "B"; PStr "A"] (PStr "C")) = true /\
  list_pop (list_insert 0 (PStr "C") [PStr "B"; PStr "A"])
  = Some (PStr "A", [PStr "C"; PStr "B"]).
Proof.
  assert (H : List.length [PStr "B"; PStr "A"] = 2) by reflexivity.
  assert (H' : fst (item_is_fresh [PStr "B"; PStr "A"] (PStr "C")) = true)
    by reflexivity.
  split; [exact H|]. split; [|split; [|split; [exact H'|]]].
  - exact (proj1 (proj2 (proj2 window_has_two_slots)) _ (PStr "C") H).
  - exact (proj1 (proj2 (proj2 window_has_two_slots)) _ (PStr "A") H).
  - exact (proj1 (proj2 (proj2 (proj2 window_has_two_slots)))
             (PStr "B") (PStr "A") (PStr "C") H').
Defined.

(** ** The polling loop *)

Section RunProperties.

Variable xmltodict_parse : string -> result xval.

Local Abbreviation cycle' := (cycle xmltodict_parse).
Local Abbreviation verdict' := (verdict xmltodict_parse).
Local Abbreviation fetch_link' := (fetch_link xmltodict_parse).

(** A turn that does not reach the freshness check stores nothing. *)
Lemma cycle_without_verdict (self : NewsHarvester) (response : result string) :
  verdict' self response = None ->
  exists e, snd (cycle' self response) = Crashed (db self) e.
Proof.
  unfold verdict, cycle. destruct response as [text|e].
  - destruct (fetch_link xmltodict_parse text) as [printed [[rss_dict news_link]|e]];
      simpl; [discriminate|]. intros _. now exists e.
  - intros _. now exists e.
Qed.

(** A turn whose check answers [False] prints the notice and changes
    neither the window nor the table. *)
Lemma cycle_duplicate (self : NewsHarvester) (response : result string) :
  verdict' self response = Some false ->
  snd (cycle' self response) = Running self.
Proof.
  unfold verdict, cycle. destruct response as [text|e];
    [|discriminate].
  destruct (fetch_link xmltodict_parse text) as [printed [[rss_dict news_link]|e]];
    simpl; [|discriminate].
  unfold check_link. destruct (scalar news_link) as [l|]; [|discriminate].
  unfold item_is_fresh.
  destruct (list_contains l (two_last_news_link self)); simpl.
  - intros _. now destruct self.
  - destruct (list_pop _) as [[? ?]|]; discriminate.
Qed.

(** A turn whose check answers [True]: the row is appended when the six
    lookups and the binding succeed, and the turn ends the process, with the
    table untouched, when one of them raises. *)
Lemma cycle_fresh (self : NewsHarvester) (text : string)
  (rss_dict news_link : xval) :
  snd (fetch_link' text) = Return (rss_dict, news_link) ->
  verdict' self (Return text) = Some true ->
  snd (cycle' self (Return text)) =
  match read_params rss_dict news_link with
  | Return values =>
      Running (mkHarvester
                 (snd (check_link (two_last_news_link self) news_link))
                 (timer_for_sleep self) (main_rss_link self)
                 (Db.insert (db self) values))
  | Raise e => Crashed (db self) e
  end.
Proof.
  unfold verdict, cycle.
  destruct (fetch_link xmltodict_parse text) as [printed fetched]. simpl.
  intros ->.
  destruct (check_link (two_last_news_link self) news_link) as [fresh window].
  simpl. intro H. injection H as ->.
  now destruct (read_params rss_dict news_link).
Qed.

(** A turn leaves the table as it was or with one row more at its end, and
    the latter only after the check answered [True]. *)
Lemma cycle_frame (self : NewsHarvester) (response : result string) :
  stored_after (snd (cycle' self response)) = db self \/
  (verdict' self response = Some true /\
   exists values,
     stored_after (snd (cycle' self response)) = Db.insert (db self) values).
Proof.
  destruct (verdict' self response) as [[|]|] eqn:E.
  - destruct response as [text|e]; [|discriminate].
    destruct (snd (fetch_link' text)) as [[rss_dict news_link]|e] eqn:F.
    + rewrite (cycle_fresh self text rss_dict news_link F E).
      destruct (read_params rss_dict news_link) as [values|e].
      * right. split; [reflexivity|]. now exists values.
      * now left.
    + unfold verdict in E.
      rewrite F in E. discriminate.
  - left. now rewrite (cycle_duplicate self response E).
  - left. destruct (cycle_without_verdict self response E) as [e ->].
    reflexivity.
Qed.

(** Over any number of turns the rows that were stored at the start stay,
    unchanged and in place, at the front of the table. *)
Lemma run_frame (responses : list (result string)) :
  forall self, exists added,
    stored_after (snd (run xmltodict_parse self responses)) = db self ++ added.
Proof.
  induction responses as [|response later IH]; intro self; simpl.
  - exists []. now rewrite app_nil_r.
  - pose proof (cycle_frame self response) as Hframe.
    destruct (cycle xmltodict_parse self response) as [printed [self'|stored e]];
      simpl in Hframe.
    + destruct (IH self') as [added Hadded].
      destruct (run xmltodict_parse self' later) as [printed' o]. simpl in *.
      destruct Hframe as [Hsame|[_ [values Hins]]].
      * rewrite Hsame in Hadded. now exists added.
      * rewrite Hins in Hadded. unfold Db.insert in Hadded.
        rewrite <- app_assoc in Hadded. eexists. exact Hadded.
    + simpl. destruct Hframe as [->|[_ [values ->]]].
      * exists []. now rewrite app_nil_r.
      * eexists. reflexivity.
Qed.

(** A link that is a dict or a list cannot be bound, so the turn that meets
    one ends the process whatever else the item holds: the window
    [check_link] gives for that case is never carried to a next turn. *)
Lemma unbindable_link_ends_turn (self : NewsHarvester) (text : string)
  (rss_dict news_link : xval) :
  snd (fetch_link' text) = Return (rss_dict, news_link) ->
  scalar news_link = None ->
  exists e, snd (cycle' self (Return text)) = Crashed (db self) e.
Proof.
  intros Hfetch Hlink.
  assert (Hv : verdict' self (Return text) = Some true).
  { unfold verdict. rewrite Hfetch. unfold check_link. now rewrite Hlink. }
  rewrite (cycle_fresh self text rss_dict news_link Hfetch Hv).
  assert (Hbind : bind_param news_link = Raise BindingError).
  { unfold bind_param. now rewrite Hlink. }
  unfold read_params. rewrite Hbind.
  repeat match goal with
         | |- context [bind ?x _] => destruct x; simpl; [|now eexists]
         end.
  now eexists.
Qed.

(** When the fetched text holds no ["</item>"], what [run] hands to the
    parser is the error message of [rss_cutter]. *)
Lemma run_parses_error_text (text : string) :
  (forall q, ~ occurs_at text "</item>" q) ->
  fetch_link' text
  = ([Print (err_text "</item>")],
     rss_dict <- xmltodict_parse (err_text "</item>") ;;
     news_link <- item_field rss_dict "link" ;;
     Return (rss_dict, news_link)).
Proof.
  intro Hnone. unfold fetch_link, rss_cutter.
  destruct (str_index text "</item>") as [p|] eqn:E; [|reflexivity].
  destruct (str_index_Some text "</item>" p E) as [Hocc _].
  now destruct (Hnone p).
Qed.

End RunProperties.

Lemma read_params_values (rss_dict news_link : xval) (values : Db.params) :
  read_params rss_dict news_link = Return values ->
  item_values rss_dict news_link values.
Proof.
  unfold read_params, item_values, field_value, image_url. intro H.
  repeat match type of H with
         | bind ?x _ = _ =>
             let E := fresh "E" in
             destruct x eqn:E; simpl in H; [|discriminate]
         end.
  injection H as <-. simpl.
  repeat match goal with
         | E : ?x = Return _ |- context [?x] => rewrite E; simpl
         end.
  repeat split; assumption.
Qed.

Lemma item_values_read_params (rss_dict news_link : xval) (values : Db.params) :
  item_values rss_dict news_link values ->
  read_params rss_dict news_link = Return values.
Proof.
  unfold read_params, item_values, field_value, image_url.
  intros (Ha & Hc & Hd & Hi & Hl & Hp & Ht).
  destruct (item_field rss_dict "author"); [simpl in *|discriminate].
  destruct (item_field rss_dict "category"); [simpl in *|discriminate].
  destruct (item_field rss_dict "description"); [simpl in *|discriminate].
  destruct (item_field rss_dict "enclosure") as [enclosure|];
    [simpl in *|discriminate].
  destruct (getitem enclosure "@url"); [simpl in *|discriminate].
  destruct (item_field rss_dict "pubDate"); [simpl in *|discriminate].
  destruct (item_field rss_dict "title"); [simpl in *|discriminate].
  rewrite Ha, Hc, Hd, Hi, Hl, Hp, Ht. simpl. now destruct values.
Qed.

(** The lookups and the binding raise exactly when the item lacks one of
    the values. *)
Lemma read_params_raises (rss_dict news_link : xval) :
  (forall values, ~ item_values rss_dict news_link values) ->
  exists e, read_params rss_dict news_link = Raise e.
Proof.
  intro Hnone. destruct (read_params rss_dict news_link) as [values|e] eqn:E.
  - now destruct (Hnone values (read_params_values _ _ _ E)).
  - now exists e.
Qed.

(** C8, as the code has it.  A turn of the loop leaves the table as it was
    or appends one row, and it appends only after [item_is_fresh] answered
    [True]; on the answer [False] nothing is stored and the object is
    unchanged.  After the answer [True] the row made of the item's author,
    category, description, image link, permalink, publication date and title
    is appended when the item carries these fields as text (or empty)
    elements; when one of them is missing or is no text, the turn raises
    before the [INSERT] and stores nothing.  Neither a sequence of turns nor
    the constructor changes or removes a stored row. *)
Theorem cycle_stores_row_only_when_fresh :
  forall (xmltodict_parse : string -> result xval) (self : NewsHarvester)
         (response : result string),
    (stored_after (snd (cycle xmltodict_parse self response)) = db self \/
     (verdict xmltodict_parse self response = Some true /\
      exists values,
        stored_after (snd (cycle xmltodict_parse self response))
        = db self ++ [Db.new_row (db self) values])) /\
    (verdict xmltodict_parse self response = Some false ->
     snd (cycle xmltodict_parse self response) = Running self) /\
    (forall text rss_dict news_link values,
       response = Return text ->
       snd (fetch_link xmltodict_parse text) = Return (rss_dict, news_link) ->
       verdict xmltodict_parse self response = Some true ->
       item_values rss_dict news_link values ->
       exists self',
         snd (cycle xmltodict_parse self response) = Running self' /\
         db self' = db self ++ [Db.new_row (db self) values]) /\
    (forall text rss_dict news_link,
       response = Return text ->
       snd (fetch_link xmltodict_parse text) = Return (rss_dict, news_link) ->
       verdict xmltodict_parse self response = Some true ->
       (forall values, ~ item_values rss_dict news_link values) ->
       exists e,
         snd (cycle xmltodict_parse self response) = Crashed (db self) e) /\
    (forall responses, exists added,
       stored_after (snd (run xmltodict_parse self responses))
       = db self ++ added) /\
    (forall timer t, db (snd (__init__ timer (Some t))) = t).
Proof.
  intros parse self response.
  split; [|split; [|split; [|split; [|split]]]].
  - apply cycle_frame.
  - apply cycle_duplicate.
  - intros text rss_dict news_link values -> Hfetch Hfresh Hvalues.
    rewrite (cycle_fresh parse self text rss_dict news_link Hfetch Hfresh),
      (item_values_read_params _ _ _ Hvalues).
    eexists. split; reflexivity.
  - intros text rss_dict news_link -> Hfetch Hfresh Hnone.
    destruct (read_params_raises rss_dict news_link Hnone) as [e Hread].
    exists e.
    now rewrite (cycle_fresh parse self text rss_dict news_link Hfetch Hfresh),
      Hread.
  - intro responses. apply run_frame.
  - intros timer t. unfold __init__, seeded.
    now destruct (seed_window _ _ _).
Qed.

Lemma cycle_stores_row_only_when_fresh_witness :
  (verdict parse_full_item fresh_start (Return one_item_feed) = Some true /\
   item_values full_item_dict (XStr "L")
     (Db.mkParams (PStr "A") (PStr "C") (PStr "D") (PStr "I") (PStr "L")
        (PStr "P") (PStr "T")) /\
   exists self',
     snd (cycle parse_full_item fresh_start (Return one_item_feed))
     = Running self' /\
     db self'
     = [Db.mkRow 1 (PStr "A") (PStr "C") (PStr "D") (PStr "I") (PStr "L")
          (PStr "P") (PStr "T")]) /\
  (verdict parse_full_item seen_L (Return one_item_feed) = Some false /\
   snd (cycle parse_full_item seen_L (Return one_item_feed)) = Running seen_L) /\
  (verdict parse_link_only fresh_start (Return one_item_feed) = Some true /\
   (forall values, ~ item_values link_only_dict (XStr "L") values) /\
   exists e,
     snd (cycle parse_link_only fresh_start (Return one_item_feed))
     = Crashed [] e).
Proof.
  assert (Hfresh : verdict parse_full_item fresh_start (Return one_item_feed)
                   = Some true) by reflexivity.
  assert (Hvalues : item_values full_item_dict (XStr "L")
                      (Db.mkParams (PStr "A") (PStr "C") (PStr "D")
                         (PStr "I") (PStr "L") (PStr "P") (PStr "T")))
    by (repeat split).
  assert (Hdup : verdict parse_full_item seen_L (Return one_item_feed)
                 = Some false) by reflexivity.
  assert (Hfresh' : verdict parse_link_only fresh_start (Return one_item_feed)
                    = Some true) by reflexivity.
  assert (Hnone : forall values, ~ item_values link_only_dict (XStr "L") values)
    by (intros values [Hauthor _]; discriminate Hauthor).
  split; [|split].
  - split; [exact Hfresh|]. split; [exact Hvalues|].
    exact (proj1 (proj2 (proj2 (cycle_stores_row_only_when_fresh
                    parse_full_item fresh_start (Return one_item_feed))))
                    one_item_feed full_item_dict (XStr "L") _
                    eq_refl eq_refl Hfresh Hvalues).
  - split; [exact Hdup|].
    exact (proj1 (proj2 (cycle_stores_row_only_when_fresh
                    parse_full_item seen_L (Return one_item_feed))) Hdup).
  - split; [exact Hfresh'|]. split; [exact Hnone|].
    exact (proj1 (proj2 (proj2 (proj2 (cycle_stores_row_only_when_fresh
                    parse_link_only fresh_start (Return one_item_feed)))))
                    one_item_feed link_only_dict (XStr "L")
                    eq_refl eq_refl Hfresh' Hnone).
Defined.

(** C8, as the specification states it, fails: the item of [one_item_feed]
    has a link no slot holds, so the check answers [True], and it has no
    author, so line 185 raises [KeyError]; no row is stored in that turn. *)
Lemma fresh_item_without_author_is_not_stored :
  fetch_link parse_link_only one_item_feed
  = ([], Return (link_only_dict, XStr "L")) /\
  verdict parse_link_only fresh_start (Return one_item_feed) = Some true /\
  cycle parse_link_only fresh_start (Return one_item_feed)
  = ([], Crashed [] KeyError) /\
  stored_after (snd (cycle parse_link_only fresh_start (Return one_item_feed)))
  = db fresh_start.
Proof. repeat split. Qed.

(** C10.  While a slot holds the empty string, the empty string is answered
    [False] and the window stays as it is; a turn of the loop whose item has
    the empty string as its link then prints the notice and stores
    nothing. *)
Theorem empty_link_is_duplicate :
  (forall a b : pyval,
     a = PStr "" \/ b = PStr "" ->
     item_is_fresh [a; b] (PStr "") = (false, [a; b])) /\
  (forall (xmltodict_parse : string -> result xval) (self : NewsHarvester)
          (a b : pyval) (text : string) (rss_dict : xval),
     two_last_news_link self = [a; b] ->
     a = PStr "" \/ b = PStr "" ->
     snd (fetch_link xmltodict_parse text) = Return (rss_dict, XStr "") ->
     verdict xmltodict_parse self (Return text) = Some false /\
     snd (cycle xmltodict_parse self (Return text)) = Running self /\
     stored_after (snd (cycle xmltodict_parse self (Return text))) = db self).
Proof.
  assert (Hdup : forall a b : pyval,
             a = PStr "" \/ b = PStr "" ->
             item_is_fresh [a; b] (PStr "") = (false, [a; b])).
  { intros a b H. rewrite item_is_fresh_two.
    assert (E : pyval_eqb (PStr "") a || pyval_eqb (PStr "") b = true).
    { apply orb_true_iff. destruct H as [->| ->]; [left|right]; reflexivity. }
    now rewrite E. }
  split; [exact Hdup|].
  intros parse self a b text rss_dict Hw Hslot Hfetch.
  assert (Hv : verdict parse self (Return text) = Some false).
  { unfold verdict. rewrite Hfetch. unfold check_link. simpl.
    now rewrite Hw, (Hdup a b Hslot). }
  split; [exact Hv|].
  rewrite (cycle_duplicate parse self (Return text) Hv). now split.
Qed.

Lemma empty_link_is_duplicate_witness :
  (PStr "A" = PStr "" \/ PStr "" = PStr "") /\
  item_is_fresh [PStr "A"; PStr ""] (PStr "") = (false, [PStr "A"; PStr ""]) /\
  snd (cycle parse_empty_link fresh_start (Return one_item_feed))
  = Running fresh_start.
Proof.
  assert (H : PStr "A" = PStr "" \/ PStr "" = PStr "") by (right; reflexivity).
  assert (H' : PStr "" = PStr "" \/ PStr "" = PStr "") by (left; reflexivity).
  split; [exact H|]. split.
  - exact (proj1 empty_link_is_duplicate (PStr "A") (PStr "") H).
  - exact (proj1 (proj2 (proj2 empty_link_is_duplicate
             parse_empty_link fresh_start (PStr "") (PStr "")
             one_item_feed empty_link_dict eq_refl H' eq_refl))).
Defined.

(** * Further properties of the code *)

(** ** [rss_cutter] beyond the single occurrence *)

Lemma str_upto_from (s : string) :
  forall n, (str_upto s n ++ str_from s n)%string = s.
Proof.
  unfold str_upto. induction s as [|c s IH]; intros [|n]; simpl;
    try reflexivity.
  now rewrite IH.
Qed.

Lemma str_upto_length (s : string) :
  forall n, n <= String.length s -> String.length (str_upto s n) = n.
Proof.
  unfold str_upto. induction s as [|c s IH]; intros [|n] Hn; simpl in *;
    try reflexivity; try lia.
  rewrite IH; lia.
Qed.

Lemma str_upto_app (a x : string) :
  str_upto (a ++ x) (String.length a) = a.
Proof.
  unfold str_upto. induction a as [|c a IH]; simpl.
  - now destruct x.
  - now rewrite IH.
Qed.

Lemma prefix_app_short (d : string) :
  forall a x, String.length d <= String.length a ->
  prefix d (a ++ x) = prefix d a.
Proof.
  induction d as [|c d IH]; intros a x Hlen.
  - destruct a; simpl; [now destruct x | reflexivity].
  - destruct a as [|c' a]; [simpl in Hlen; lia|]. simpl.
    destruct (ascii_dec c c'); [|reflexivity].
    apply IH. simpl in Hlen. lia.
Qed.

(** Whether the substring stands at [q] is decided by the characters up to
    the end of that place. *)
Lemma occurs_at_app (d x : string) (q : nat) :
  forall a, q + String.length d <= String.length a ->
  (occurs_at (a ++ x) d q <-> occurs_at a d q).
Proof.
  induction q as [|q IH]; intros a Hlen.
  - rewrite <- !prefix_occurs_at. now rewrite prefix_app_short.
  - destruct a as [|c a]; [simpl in Hlen; lia|].
    change (String c a ++ x)%string with (String c (a ++ x)).
    rewrite !occurs_at_shift. apply IH. simpl in Hlen. lia.
Qed.

Lemma occurs_first (s sub : string) (p : nat) :
  occurs_at s sub p -> exists p', first_occurrence s sub p'.
Proof.
  intro Hocc. destruct (str_index s sub) as [p'|] eqn:E.
  - exists p'. exact (str_index_Some s sub p' E).
  - now destruct (str_index_None s sub E p).
Qed.

(** The text cut after the first delimiter, with anything put behind it,
    still has its first delimiter at the same place. *)
Lemma first_occurrence_tail (T D X : string) (p : nat) :
  first_occurrence T D p ->
  first_occurrence (str_upto T (p + String.length D) ++ X) D p.
Proof.
  intros [Hocc Hfirst].
  assert (Hlen : String.length (str_upto T (p + String.length D))
                 = p + String.length D).
  { apply str_upto_length. now destruct Hocc. }
  assert (Hsame : forall q, q <= p ->
            (occurs_at (str_upto T (p + String.length D) ++ X) D q
             <-> occurs_at T D q)).
  { intros q Hq.
    rewrite <- (str_upto_from T (p + String.length D)) at 2.
    rewrite !occurs_at_app; [reflexivity | lia | lia]. }
  split.
  - apply Hsame; [lia | exact Hocc].
  - intros q Hq Hocc'. apply (Hfirst q Hq). apply Hsame; [lia | exact Hocc'].
Qed.

Lemma rss_cutter_tail (T D X : string) (p : nat) :
  first_occurrence T D p ->
  rss_cutter (str_upto T (p + String.length D) ++ X) D
  = ([], Return (str_upto T (p + String.length D) ++ closing_markup)%string).
Proof.
  intro Hfirst.
  assert (Hlen : String.length (str_upto T (p + String.length D))
                 = p + String.length D).
  { apply str_upto_length. now destruct Hfirst as [[? _] _]. }
  destruct (first_occurrence_tail T D X p Hfirst) as [Hocc' Hfirst'].
  rewrite (rss_cutter_first_occurrence _ D p Hocc' Hfirst').
  rewrite <- Hlen at 2. now rewrite str_upto_app.
Qed.

(** X1.  Whatever follows the first delimiter has no influence: a text in
    which the delimiter stands first at [p] (and possibly again later) and
    the same text with everything behind that delimiter replaced give the
    same result, the text up to and including the first delimiter followed
    by the closing markup. *)
Theorem rss_cutter_ignores_tail :
  forall (T D X : string) (p : nat),
    first_occurrence T D p ->
    rss_cutter T D
    = ([], Return (str_upto T (p + String.length D) ++ closing_markup)%string)
    /\ rss_cutter (str_upto T (p + String.length D) ++ X) D = rss_cutter T D.
Proof.
  intros T D X p Hfirst.
  assert (Hcut : rss_cutter T D
                 = ([], Return (str_upto T (p + String.length D)
                                ++ closing_markup)%string)).
  { destruct Hfirst as [Hocc Hbefore].
    now apply rss_cutter_first_occurrence. }
  split; [exact Hcut|].
  rewrite Hcut. now apply rss_cutter_tail.
Qed.

Lemma rss_cutter_ignores_tail_witness :
  first_occurrence "<a>1</item><b>2</item>" "</item>" 4 /\
  rss_cutter "<a>1</item><b>2</item>" "</item>"
  = ([], Return "<a>1</item></channel></rss>") /\
  rss_cutter "<a>1</item>something else" "</item>"
  = rss_cutter "<a>1</item><b>2</item>" "</item>".
Proof.
  assert (H : first_occurrence "<a>1</item><b>2</item>" "</item>" 4).
  { apply str_index_Some. reflexivity. }
  split; [exact H|]. split.
  - exact (proj1 (rss_cutter_ignores_tail _ _ "" 4 H)).
  - exact (proj2 (rss_cutter_ignores_tail _ _ "something else" 4 H)).
Defined.

(** X2.  Cutting is idempotent: a text that [rss_cutter] returned for a
    delimiter it found is returned unchanged, and without a message, when it
    is cut again at the same delimiter. *)
Theorem rss_cutter_idempotent :
  forall (T D R : string) (p : nat),
    occurs_at T D p ->
    snd (rss_cutter T D) = Return R ->
    rss_cutter R D = ([], Return R).
Proof.
  intros T D R p Hocc Hcut.
  destruct (occurs_first T D p Hocc) as [p' Hfirst].
  assert (Hres : rss_cutter T D
                 = ([], Return (str_upto T (p' + String.length D)
                                ++ closing_markup)%string)).
  { destruct Hfirst as [Hocc' Hbefore].
    now apply rss_cutter_first_occurrence. }
  rewrite Hres in Hcut. simpl in Hcut. injection Hcut as <-.
  now apply rss_cutter_tail.
Qed.

Lemma rss_cutter_idempotent_witness :
  occurs_at "<a>1</item><b>2</item>" "</item>" 15 /\
  snd (rss_cutter "<a>1</item><b>2</item>" "</item>")
  = Return "<a>1</item></channel></rss>" /\
  rss_cutter "<a>1</item></channel></rss>" "</item>"
  = ([], Return "<a>1</item></channel></rss>").
Proof.
  assert (H : occurs_at "<a>1</item><b>2</item>" "</item>" 15).
  { split; [simpl; lia | reflexivity]. }
  assert (H' : snd (rss_cutter "<a>1</item><b>2</item>" "</item>")
               = Return "<a>1</item></channel></rss>") by reflexivity.
  split; [exact H|]. split; [exact H'|].
  exact (rss_cutter_idempotent _ _ _ 15 H H').
Defined.

(** X3.  The edges of the search.  With the empty delimiter every text,
    the empty one too, is cut at position 0: the result is the closing
    markup alone and nothing is printed.  With a delimiter that is not empty
    the empty text takes the error branch. *)
Theorem rss_cutter_empty_arguments :
  (forall T : string,
     rss_cutter T "" = ([], Return closing_markup)) /\
  (forall D : string,
     D <> "" ->
     rss_cutter "" D = ([Print (err_text D)], Return (err_text D))).
Proof.
  split.
  - intro T. unfold rss_cutter. rewrite str_index_unfold.
    assert (E : prefix "" T = true) by now destruct T.
    rewrite E. unfold str_upto. now destruct T.
  - intros D HD. unfold rss_cutter.
    destruct D as [|c D]; [contradiction | reflexivity].
Qed.

Lemma rss_cutter_empty_arguments_witness :
  "</item>" <> "" /\
  rss_cutter "" "</item>"
  = ([Print (err_text "</item>")], Return (err_text "</item>")) /\
  rss_cutter "<rss>" "" = ([], Return "</channel></rss>").
Proof.
  assert (H : "</item>" <> "") by discriminate.
  split; [exact H|]. split.
  - exact (proj2 rss_cutter_empty_arguments "</item>" H).
  - exact (proj1 rss_cutter_empty_arguments "<rss>").
Defined.

Lemma str_last_app (s t : string) :
  t <> "" -> str_last (s ++ t) = str_last t.
Proof.
  intro Ht. induction s as [|c s IH]; [reflexivity|].
  simpl. rewrite IH.
  destruct (s ++ t)%string eqn:E; [|reflexivity].
  destruct s; [simpl in E; contradiction | discriminate].
Qed.

Lemma str_app_not_empty (s t : string) : t <> "" -> (s ++ t)%string <> "".
Proof.
  intros Ht E. destruct s; [simpl in E; contradiction | discriminate].
Qed.

(** The message of the error branch ends with the letter [r] of
    [rss_cutter], a cut text with the bracket of the closing markup. *)
Lemma err_text_last (D : string) : str_last (err_text D) = Some "r"%char.
Proof.
  unfold err_text. rewrite !str_last_app; try reflexivity;
    repeat (apply str_app_not_empty); discriminate.
Qed.

(** X4.  The two branches never return the same string: what is returned
    for a text that holds its delimiter differs from what is returned for a
    text that does not hold its own, whatever the texts and delimiters. *)
Theorem rss_cutter_error_differs_from_cut :
  forall (T D T' D' : string) (p : nat),
    occurs_at T D p ->
    (forall q, ~ occurs_at T' D' q) ->
    snd (rss_cutter T D) <> snd (rss_cutter T' D').
Proof.
  intros T D T' D' p Hocc Hnone Heq.
  destruct (occurs_first T D p Hocc) as [p' [Hocc' Hbefore]].
  rewrite (rss_cutter_first_occurrence T D p' Hocc' Hbefore) in Heq.
  assert (Herr : rss_cutter T' D' = ([Print (err_text D')], Return (err_text D'))).
  { unfold rss_cutter. destruct (str_index T' D') as [q|] eqn:E; [|reflexivity].
    destruct (str_index_Some T' D' q E) as [Hq _]. now destruct (Hnone q). }
  rewrite Herr in Heq. simpl in Heq. injection Heq as Heq.
  apply (f_equal str_last) in Heq.
  rewrite err_text_last, str_last_app in Heq; discriminate.
Qed.

Lemma rss_cutter_error_differs_from_cut_witness :
  occurs_at one_item_feed "</item>" 34 /\
  (forall q, ~ occurs_at "<html>Service Unavailable</html>" "</item>" q) /\
  snd (rss_cutter one_item_feed "</item>")
  <> snd (rss_cutter "<html>Service Unavailable</html>" "</item>").
Proof.
  assert (H : occurs_at one_item_feed "</item>" 34).
  { split; [simpl; lia | reflexivity]. }
  assert (H' : forall q,
             ~ occurs_at "<html>Service Unavailable</html>" "</item>" q).
  { apply str_index_None. reflexivity. }
  split; [exact H|]. split; [exact H'|].
  exact (rss_cutter_error_differs_from_cut _ _ _ _ 34 H H').
Defined.

(** X5.  A turn of the loop whose fetched text holds no ["</item>"] hands
    the error message to the parser; when the parser refuses it, the turn
    has printed the message, ends the process with the parser's exception
    and stores nothing. *)
Theorem turn_without_delimiter_ends_process :
  forall (xmltodict_parse : string -> result xval) (self : NewsHarvester)
         (text : string) (e : exn),
    (forall q, ~ occurs_at text "</item>" q) ->
    xmltodict_parse (err_text "</item>") = Raise e ->
    cycle xmltodict_parse self (Return text)
    = ([Print (err_text "</item>")], Crashed (db self) e).
Proof.
  intros parse self text e Hnone Hparse. unfold cycle.
  rewrite (run_parses_error_text parse text Hnone), Hparse. reflexivity.
Qed.

Lemma turn_without_delimiter_ends_process_witness :
  (forall q, ~ occurs_at "<html>Service Unavailable</html>" "</item>" q) /\
  parse_link_only (err_text "</item>") = Raise ExpatError /\
  cycle parse_link_only fresh_start (Return "<html>Service Unavailable</html>")
  = ([Print (err_text "</item>")], Crashed [] ExpatError).
Proof.
  assert (H : forall q,
            ~ occurs_at "<html>Service Unavailable</html>" "</item>" q).
  { apply str_index_None. reflexivity. }
  assert (H' : parse_link_only (err_text "</item>") = Raise ExpatError)
    by reflexivity.
  split; [exact H|]. split; [exact H'|].
  exact (turn_without_delimiter_ends_process parse_link_only fresh_start
           _ ExpatError H H').
Defined.

(** ** The window beyond two slots and single calls *)

Lemma list_pop_cons {A : Type} (x : A) (w : list A) :
  w <> [] -> exists y rest, list_pop (x :: w) = Some (y, x :: rest).
Proof.
  intro Hw. simpl. destruct (list_pop w) as [[y rest]|] eqn:E.
  - now exists y, rest.
  - destruct w as [|z w]; [contradiction|]. simpl in E.
    destruct (list_pop w) as [[? ?]|]; discriminate.
Qed.

Lemma list_pop_incl {A : Type} (l rest : list A) (y : A) :
  list_pop l = Some (y, rest) -> incl rest l.
Proof.
  revert rest y. induction l as [|x l IH]; simpl; intros rest y H.
  - discriminate.
  - destruct (list_pop l) as [[z r]|] eqn:E; injection H as <- <-.
    + intros u [->|Hu]; [now left | right; now apply (IH r z)].
    + intros u [].
Qed.

(** X6.  A link that was just submitted is tracked: after a call on a
    window that is not empty, with either answer, the link is in the window
    and the same link submitted again is answered [False] with the window
    unchanged.  A window without slots remembers nothing: every call on it
    answers [True] and leaves it empty. *)
Theorem item_is_fresh_repeated_link :
  (forall (w : list pyval) (l : pyval),
     w <> [] ->
     In l (snd (item_is_fresh w l)) /\
     item_is_fresh (snd (item_is_fresh w l)) l
     = (false, snd (item_is_fresh w l))) /\
  (forall l : pyval, item_is_fresh [] l = (true, [])).
Proof.
  split; [|reflexivity].
  intros w l Hw.
  assert (Hin : In l (snd (item_is_fresh w l))).
  { unfold item_is_fresh. destruct (list_contains l w) eqn:E.
    - simpl. now apply list_contains_In.
    - change (list_insert 0 l w) with (l :: w).
      destruct (list_pop_cons l w Hw) as [y [rest ->]]. now left. }
  split; [exact Hin|].
  apply list_contains_In in Hin.
  unfold item_is_fresh at 1. now rewrite Hin.
Qed.

Lemma item_is_fresh_repeated_link_witness :
  [PStr "B"; PStr "A"] <> [] /\
  item_is_fresh [PStr "B"; PStr "A"] (PStr "C") = (true, [PStr "C"; PStr "B"]) /\
  item_is_fresh (snd (item_is_fresh [PStr "B"; PStr "A"] (PStr "C"))) (PStr "C")
  = (false, [PStr "C"; PStr "B"]).
Proof.
  assert (H : [PStr "B"; PStr "A"] <> []) by discriminate.
  split; [exact H|]. split; [reflexivity|].
  exact (proj2 (proj1 item_is_fresh_repeated_link _ (PStr "C") H)).
Defined.

(** X7.  The case the window was sized for: while the feed shows, in any
    order and any number of times, only the two links the window holds,
    every call answers [False] and the window stays as it is. *)
Theorem tracked_pair_is_never_fresh :
  forall (a b : pyval) (links : list pyval),
    Forall (fun l => l = a \/ l = b) links ->
    classify [a; b] links = (repeat false (List.length links), [a; b]).
Proof.
  intros a b links H. induction H as [|l links Hl _ IH]; [reflexivity|].
  simpl. rewrite item_is_fresh_two.
  assert (E : pyval_eqb l a || pyval_eqb l b = true).
  { apply orb_true_iff. destruct Hl as [->| ->]; [left|right];
      now apply pyval_eqb_eq. }
  now rewrite E, IH.
Qed.

Lemma tracked_pair_is_never_fresh_witness :
  Forall (fun l => l = PStr "B" \/ l = PStr "A")
    [PStr "A"; PStr "B"; PStr "B"; PStr "A"] /\
  classify [PStr "B"; PStr "A"] [PStr "A"; PStr "B"; PStr "B"; PStr "A"]
  = ([false; false; false; false], [PStr "B"; PStr "A"]).
Proof.
  assert (H : Forall (fun l => l = PStr "B" \/ l = PStr "A")
                [PStr "A"; PStr "B"; PStr "B"; PStr "A"]).
  { repeat constructor; (now left) || (now right). }
  split; [exact H|].
  exact (tracked_pair_is_never_fresh (PStr "B") (PStr "A") _ H).
Defined.

Lemma item_is_fresh_incl (w : list pyval) (l : pyval) :
  incl (snd (item_is_fresh w l)) (l :: w).
Proof.
  unfold item_is_fresh. destruct (list_contains l w); simpl.
  - now apply incl_tl, incl_refl.
  - unfold list_insert. simpl.
    destruct (list_pop w) as [[y rest]|] eqn:E; simpl.
    + intros u [->|Hu]; [now left|].
      right. now apply (list_pop_incl w rest y E).
    + intros u [].
Qed.

(** X8.  The window never holds a value of its own making: after any
    sequence of calls, on a window of any size, each of its elements was in
    the window at the start or is one of the links that were submitted. *)
Theorem window_holds_only_given_links :
  forall (links : list pyval) (w : list pyval) (x : pyval),
    In x (snd (classify w links)) -> In x w \/ In x links.
Proof.
  induction links as [|l links IH]; intros w x Hx.
  - now left.
  - simpl in Hx.
    destruct (item_is_fresh w l) as [fresh w'] eqn:E.
    specialize (IH w' x).
    destruct (classify w' links) as [answers final]. simpl in *.
    destruct (IH Hx) as [Hw'|Hlinks].
    + assert (Hin : In x (l :: w)).
      { apply (item_is_fresh_incl w l). now rewrite E. }
      destruct Hin as [->|Hw]; [right; now left | now left].
    + right. now right.
Qed.

Lemma window_holds_only_given_links_witness :
  In (PStr "B") (snd (classify empty_window [PStr "A"; PStr "B"; PStr "C"])) /\
  (In (PStr "B") empty_window \/ In (PStr "B") [PStr "A"; PStr "B"; PStr "C"]).
Proof.
  assert (H : In (PStr "B")
                (snd (classify empty_window [PStr "A"; PStr "B"; PStr "C"])))
    by (right; now left).
  split; [exact H|].
  exact (window_holds_only_given_links _ _ _ H).
Defined.

(** ** The window and the table over a run *)









Lemma bind_param_scalar (v : xval) (p : pyval) :
  bind_param v = Return p -> scalar v = Some p.
Proof.
  unfold bind_param. destruct (scalar v); [|discriminate].
  now intros [= ->].
Qed.

Section RunInvariant.

Variable xmltodict_parse : string -> result xval.




End RunInvariant.





(** ** The console and the table *)

Lemma fetch_link_no_notice (xmltodict_parse : string -> result xval)
  (text : string) :
  filter is_fresh_notice (fst (fetch_link xmltodict_parse text)) = [].
Proof.
  unfold fetch_link, rss_cutter.
  destruct (str_index text "</item>"); reflexivity.
Qed.

Lemma fresh_notices_app (out out' : list event) :
  fresh_notices (out ++ out') = fresh_notices out + fresh_notices out'.
Proof.
  unfold fresh_notices. now rewrite filter_app, length_app.
Qed.

(** A turn announces a stored item exactly when it stores a row. *)
Lemma cycle_notices (xmltodict_parse : string -> result xval)
  (self : NewsHarvester) (response : result string) :
  exists added,
    stored_after (snd (cycle xmltodict_parse self response)) = db self ++ added /\
    List.length added = fresh_notices (fst (cycle xmltodict_parse self response)).
Proof.
  assert (Hnone : forall printed e,
            fresh_notices printed = 0 ->
            exists added,
              stored_after (snd (printed, Crashed (db self) e))
              = db self ++ added /\
              List.length added
              = fresh_notices (fst (printed, Crashed (db self) e))).
  { intros printed e Hzero. exists []. cbn [fst snd stored_after].
    now rewrite app_nil_r, Hzero. }
  unfold cycle. destruct response as [text|e]; [|now apply Hnone].
  pose proof (fetch_link_no_notice xmltodict_parse text) as Hquiet.
  destruct (fetch_link xmltodict_parse text) as [printed fetched].
  simpl in Hquiet.
  assert (Hzero : fresh_notices printed = 0)
    by (unfold fresh_notices; now rewrite Hquiet).
  destruct fetched as [[rss_dict news_link]|e]; [|now apply Hnone].
  destruct (check_link (two_last_news_link self) news_link) as [[|] window].
  - destruct (read_params rss_dict news_link) as [values|e];
      [|now apply Hnone].
    exists [Db.new_row (db self) values]. cbn [fst snd stored_after db].
    split; [reflexivity|]. now rewrite fresh_notices_app, Hzero.
  - exists []. cbn [fst snd stored_after db].
    split; [now rewrite app_nil_r|]. now rewrite fresh_notices_app, Hzero.
Qed.

(** X11.  Over any number of turns the console announces a stored item
    (["Получена свежая новость, БД обновлена!"]) exactly as many times as
    rows were added to the table: never for a duplicate, for a turn that
    raised or for the message of [rss_cutter], and once for every row. *)
Theorem fresh_notice_for_every_stored_row :
  forall (xmltodict_parse : string -> result xval)
         (responses : list (result string)) (self : NewsHarvester),
    exists added,
      stored_after (snd (run xmltodict_parse self responses))
      = db self ++ added /\
      List.length added
      = fresh_notices (fst (run xmltodict_parse self responses)).
Proof.
  intros parse responses. induction responses as [|response later IH];
    intro self.
  - exists []. split; [now rewrite app_nil_r | reflexivity].
  - simpl. destruct (cycle_notices parse self response) as [added [Hdb Hn]].
    destruct (cycle parse self response) as [printed [next|stored e]];
      simpl in Hdb, Hn.
    + destruct (IH next) as [added' [Hdb' Hn']].
      destruct (run parse next later) as [printed' o]. simpl in *.
      exists (added ++ added'). split.
      * now rewrite Hdb', Hdb, app_assoc.
      * now rewrite length_app, fresh_notices_app, Hn, Hn'.
    + exists added. now split.
Qed.

(** ** The constructor's report, the idle loop and the repeated feed *)



Section IdleLoop.

Variable xmltodict_parse : string -> result xval.


(** A link that was just submitted to a window that is not empty is
    answered [False] when it is submitted again. *)
Lemma item_is_fresh_again (w : list pyval) (l : pyval) :
  w <> [] ->
  item_is_fresh (snd (item_is_fresh w l)) l = (false, snd (item_is_fresh w l)).
Proof.
  intro Hw.
  assert (Hin : In l (snd (item_is_fresh w l))).
  { unfold item_is_fresh. destruct (list_contains l w) eqn:E.
    - simpl. now apply list_contains_In.
    - change (list_insert 0 l w) with (l :: w).
      destruct (list_pop_cons l w Hw) as [y [rest ->]]. now left. }
  apply list_contains_In in Hin.
  unfold item_is_fresh at 1. now rewrite Hin.
Qed.

End IdleLoop.



(** X14.  The same feed twice: when a turn of an object whose window is
    not empty goes on to the next turn, a second turn on the same response
    stores nothing and leaves the object as the first turn left it, whether
    the first turn stored a row or not. *)
Theorem same_response_again_stores_nothing :
  forall (xmltodict_parse : string -> result xval)
         (self self' : NewsHarvester) (response : result string),
    two_last_news_link self <> [] ->
    snd (cycle xmltodict_parse self response) = Running self' ->
    snd (cycle xmltodict_parse self' response) = Running self'.
Proof.
  intros parse self self' response Hw Hrun.
  destruct (verdict parse self response) as [[|]|] eqn:Hv.
  - destruct response as [text|e]; [|discriminate].
    destruct (snd (fetch_link parse text)) as [[rss_dict news_link]|e] eqn:F;
      [|unfold verdict in Hv; rewrite F in Hv; discriminate].
    rewrite (cycle_fresh parse self text rss_dict news_link F Hv) in Hrun.
    destruct (read_params rss_dict news_link) as [values|e] eqn:R;
      [|discriminate].
    injection Hrun as <-.
    destruct (read_params_values _ _ _ R) as (_ & _ & _ & _ & Hl & _).
    apply bind_param_scalar in Hl.
    apply cycle_duplicate. unfold verdict. rewrite F.
    unfold check_link. rewrite Hl. simpl two_last_news_link.
    now rewrite (item_is_fresh_again _ _ Hw).
  - rewrite (cycle_duplicate parse self response Hv) in Hrun.
    injection Hrun as <-. now apply cycle_duplicate.
  - destruct (cycle_without_verdict parse self response Hv) as [e He].
    rewrite He in Hrun. discriminate.
Qed.

Lemma same_response_again_stores_nothing_witness :
  two_last_news_link fresh_start <> [] /\
  snd (cycle parse_full_item fresh_start (Return one_item_feed))
  = Running after_first_item /\
  snd (cycle parse_full_item after_first_item (Return one_item_feed))
  = Running after_first_item.
Proof.
  assert (H : two_last_news_link fresh_start <> []) by discriminate.
  assert (H' : snd (cycle parse_full_item fresh_start (Return one_item_feed))
               = Running after_first_item) by reflexivity.
  split; [exact H|]. split; [exact H'|].
  exact (same_response_again_stores_nothing parse_full_item fresh_start
           after_first_item (Return one_item_feed) H H').
Defined.

(** X15.  [rss_cutter] writes to the console exactly when the delimiter
    stands nowhere in the text, and what it then prints is the string it
    returns; when the delimiter is found it prints nothing. *)
Theorem rss_cutter_prints_only_on_error :
  forall T D : string,
    ((exists p, occurs_at T D p) <-> fst (rss_cutter T D) = []) /\
    ((forall q, ~ occurs_at T D q) <->
     exists message,
       rss_cutter T D = ([Print message], Return message)).
Proof.
  intros T D. unfold rss_cutter.
  destruct (str_index T D) as [p|] eqn:E.
  - destruct (str_index_Some T D p E) as [Hocc _]. split; split.
    + reflexivity.
    + intros _. now exists p.
    + intro Hnone. now destruct (Hnone p).
    + intros [message H]. discriminate.
  - pose proof (str_index_None T D E) as Hnone. split; split.
    + intros [p Hp]. now destruct (Hnone p).
    + discriminate.
    + intros _. now eexists.
    + intros _. exact Hnone.
Qed.

Lemma rss_cutter_prints_only_on_error_witness :
  (exists p, occurs_at one_item_feed "</item>" p) /\
  fst (rss_cutter one_item_feed "</item>") = [] /\
  (forall q, ~ occurs_at "<html>Service Unavailable</html>" "</item>" q) /\
  exists message,
    rss_cutter "<html>Service Unavailable</html>" "</item>"
    = ([Print message], Return message).
Proof.
  assert (H : exists p, occurs_at one_item_feed "</item>" p).
  { exists 34. split; [simpl; lia | reflexivity]. }
  assert (H' : forall q,
             ~ occurs_at "<html>Service Unavailable</html>" "</item>" q).
  { apply str_index_None. reflexivity. }
  split; [exact H|]. split; [|split; [exact H'|]].
  - exact (proj1 (proj1 (rss_cutter_prints_only_on_error _ _)) H).
  - exact (proj1 (proj2 (rss_cutter_prints_only_on_error _ _)) H').
Defined.
